(** * WEDM-AI-simulation: the predictor factory, the parameter panel and the
      training panel, embedded from the TypeScript sources.

    - [src/utils/aiModels.ts]           -> [Module AiModels]
    - [src/components/ParameterPanel.tsx] -> [Module ParameterPanel]
    - the AI model panel component       -> [Module AIModelPanel]

    JavaScript numbers are modelled by [number]: NaN, +Infinity, -Infinity
    and the finite values, held as rationals. Every arithmetic operation
    computes the exact rational result and rounds it as IEEE 754 binary64
    does ([round64]: to nearest, ties to even, gradual underflow, overflow
    to an infinity), and a decimal literal of the source stands for the
    double nearest to it ([lit]). The sign of zero is not modelled. *)

From Stdlib Require Import QArith Qabs Qround Qpower ZArith List Bool String.
From Stdlib Require Import Lia Lqa Permutation Sorted.
Import ListNotations.

Set Implicit Arguments.

(* ===================================================================== *)
(** * JavaScript numbers                                                   *)
(* ===================================================================== *)

Module JS.

Inductive number : Type :=
| NaN
| PosInf
| NegInf
| Fin (q : Q).

Definition is_finite (n : number) : bool :=
  match n with Fin _ => true | _ => false end.

Definition is_nan (n : number) : bool :=
  match n with NaN => true | _ => false end.

(** Unary minus. *)
Definition neg (n : number) : number :=
  match n with
  | NaN => NaN
  | PosInf => NegInf
  | NegInf => PosInf
  | Fin q => Fin (- q)
  end.

(** ** Rounding to binary64 *)

(** 2^k. *)
Definition pow2 (k : Z) : Q := (2 ^ k)%Q.

(** The integer [e] with 2^e <= x < 2^(e+1), for [x] above zero. *)
Definition ilog2 (x : Q) : Z :=
  let e := (Z.log2 (Qnum x) - Z.log2 (Zpos (Qden x)))%Z in
  if Qle_bool (pow2 e) x then e else (e - 1)%Z.

(** The integer nearest to [z], the even one of the two when [z] lies
    half-way. *)
Definition round_half_even (z : Q) : Z :=
  let f := Qfloor z in
  match (z - inject_Z f ?= 1 # 2)%Q with
  | Lt => f
  | Gt => (f + 1)%Z
  | Eq => if Z.even f then f else (f + 1)%Z
  end.

(** The exponent of the last place of the doubles around [x] > 0: 52 bits
    below the leading one, and never below 2^-1074 (subnormal numbers). *)
Definition quantum (x : Q) : Z := Z.max (ilog2 x - 52) (-1074).

(** [x] > 0 rounded to a multiple of its quantum. *)
Definition round_value (x : Q) : Q :=
  (inject_Z (round_half_even (x / pow2 (quantum x))) * pow2 (quantum x))%Q.

(** The double nearest to [x] > 0; what rounds to 2^1024 or more is
    +Infinity. *)
Definition round_positive (x : Q) : number :=
  let v := round_value x in
  if Qle_bool (pow2 1024) v then PosInf else Fin (Qred v).

(** The double nearest to the rational [x]. *)
Definition round64 (x : Q) : number :=
  let x := Qred x in
  match (x ?= 0)%Q with
  | Eq => Fin 0
  | Gt => round_positive x
  | Lt => neg (round_positive (- x))
  end.

(** A decimal literal of the source. *)
Definition lit (x : Q) : number := round64 x.

(** ** Arithmetic *)

(** [a + b]: Infinity + -Infinity is NaN. *)
Definition add (a b : number) : number :=
  match a, b with
  | NaN, _ | _, NaN => NaN
  | PosInf, NegInf | NegInf, PosInf => NaN
  | PosInf, _ | _, PosInf => PosInf
  | NegInf, _ | _, NegInf => NegInf
  | Fin x, Fin y => round64 (x + y)
  end.

(** [a - b]. *)
Definition sub (a b : number) : number := add a (neg b).

(** An infinity multiplied by a finite value: 0 gives NaN, otherwise the
    sign of the product. *)
Definition scale_inf (inf : number) (q : Q) : number :=
  match q ?= 0 with
  | Eq => NaN
  | Gt => inf
  | Lt => neg inf
  end.

(** [a * b]. *)
Definition mul (a b : number) : number :=
  match a, b with
  | NaN, _ | _, NaN => NaN
  | Fin x, Fin y => round64 (x * y)
  | Fin x, inf => scale_inf inf x
  | inf, Fin y => scale_inf inf y
  | PosInf, PosInf | NegInf, NegInf => PosInf
  | PosInf, NegInf | NegInf, PosInf => NegInf
  end.

(** [a / b]: a finite divisor equal to zero is taken as +0. *)
Definition div (a b : number) : number :=
  match a, b with
  | NaN, _ | _, NaN => NaN
  | Fin x, Fin y =>
      if Qeq_bool y 0
      then match x ?= 0 with Eq => NaN | Gt => PosInf | Lt => NegInf end
      else round64 (x / y)
  | Fin _, _ => Fin 0
  | inf, Fin y => if Qle_bool 0 y then inf else neg inf
  | _, _ => NaN
  end.

(** [a >= b], false as soon as one side is NaN. *)
Definition geb (a b : number) : bool :=
  match a, b with
  | NaN, _ | _, NaN => false
  | PosInf, _ => true
  | _, NegInf => true
  | NegInf, _ => false
  | _, PosInf => false
  | Fin x, Fin y => Qle_bool y x
  end.

(** [a > b]. *)
Definition gtb (a b : number) : bool :=
  match a, b with
  | NaN, _ | _, NaN => false
  | PosInf, PosInf | NegInf, NegInf => false
  | PosInf, _ => true
  | _, NegInf => true
  | NegInf, _ => false
  | _, PosInf => false
  | Fin x, Fin y => negb (Qle_bool x y)
  end.

(** [a <= b] and [a < b]. *)
Definition leb (a b : number) : bool := geb b a.
Definition ltb (a b : number) : bool := gtb b a.

(** [Math.max(a, b)]: NaN as soon as one argument is NaN. *)
Definition Math_max (a b : number) : number :=
  match a, b with
  | NaN, _ | _, NaN => NaN
  | _, _ => if geb a b then a else b
  end.

(** Truthiness of a number: 0 and NaN are falsy. *)
Definition truthy (n : number) : bool :=
  match n with
  | NaN => false
  | Fin q => negb (Qeq_bool q 0)
  | _ => true
  end.

(** [v || d] where [v] is a property read that may be [undefined] ([None])
    and [d] a number. *)
Definition or_default (v : option number) (d : number) : number :=
  match v with
  | None => d
  | Some n => if truthy n then n else d
  end.

(** [xs[i]] used as an operand of arithmetic: a read out of range gives
    [undefined], which arithmetic turns into NaN. *)
Definition at_index (xs : list number) (i : nat) : number :=
  nth i xs NaN.

(** [xs.map((x, i) => f(x, i))]. *)
Fixpoint mapi_from {A B : Type} (i : nat) (f : A -> nat -> B) (xs : list A)
  : list B :=
  match xs with
  | [] => []
  | x :: rest => f x i :: mapi_from (S i) f rest
  end.

Definition mapi {A B : Type} (f : A -> nat -> B) (xs : list A) : list B :=
  mapi_from 0 f xs.

(** [xs.reduce((acc, x, i) => f(acc, x, i), init)]. *)
Fixpoint reducei_from {A B : Type} (i : nat) (f : B -> A -> nat -> B)
  (xs : list A) (acc : B) : B :=
  match xs with
  | [] => acc
  | x :: rest => reducei_from (S i) f rest (f acc x i)
  end.

Definition reducei {A B : Type} (f : B -> A -> nat -> B) (xs : list A)
  (init : B) : B :=
  reducei_from 0 f xs init.

(** [xs.reduce((acc, x) => f(acc, x), init)]. *)
Definition reduce {A B : Type} (f : B -> A -> B) (xs : list A) (init : B)
  : B :=
  fold_left f xs init.

(** [xs.length] as a number. *)
Definition length_of {A : Type} (xs : list A) : number :=
  Fin (inject_Z (Z.of_nat (List.length xs))).

(** Two numbers that denote the same value; rationals are compared up to
    [==], and NaN is the same value as NaN. *)
Definition same (a b : number) : Prop :=
  match a, b with
  | NaN, NaN | PosInf, PosInf | NegInf, NegInf => True
  | Fin x, Fin y => x == y
  | _, _ => False
  end.

(** The functions of [Math] whose results the language leaves to the
    implementation: the model takes them as given. *)
Class MathLib : Type := {
  Math_sqrt : number -> number;
  Math_tanh : number -> number;
  Math_exp : number -> number;
  Math_pow : number -> number -> number
}.

(** ** Vocabulary about numbers *)

(** A finite number of magnitude at most [bound]. *)
Definition within (bound : Q) (v : number) : bool :=
  match v with
  | Fin q => Qle_bool (- bound) q && Qle_bool q bound
  | _ => false
  end.

(** [a <= b], or one of the two is NaN. *)
Definition le_unless_nan (a b : number) : bool :=
  is_nan a || is_nan b || leb a b.

(** [v] is at least [lo], or NaN. *)
Definition floored_unless_nan (lo v : number) : bool :=
  is_nan v || geb v lo.

End JS.

Arguments JS.Fin q%_Q.

Declare Scope js_scope.
Delimit Scope js_scope with js.
Bind Scope js_scope with JS.number.
Infix "+" := JS.add : js_scope.
Infix "-" := JS.sub : js_scope.
Infix "*" := JS.mul : js_scope.
Infix "/" := JS.div : js_scope.
Notation "- x" := (JS.neg x) : js_scope.
Notation "v || d" := (JS.or_default v d) : js_scope.

(* ===================================================================== *)
(** * src/utils/aiModels.ts                                                *)
(* ===================================================================== *)

Module AiModels.
Import JS.

(** ** The world a training run reads: [Math.random] and [Date.now] *)

Record World : Type := mkWorld {
  random_source : nat -> Q;     (* the n-th value [Math.random()] returns *)
  random_calls : nat;           (* how many have been drawn *)
  clock_source : nat -> Z;      (* the n-th value [Date.now()] returns *)
  clock_calls : nat
}.

Definition M (A : Type) : Type := World -> A * World.

Definition ret {A : Type} (a : A) : M A := fun w => (a, w).

Definition bind {A B : Type} (c : M A) (k : A -> M B) : M B :=
  fun w => let (a, w') := c w in k a w'.

Notation "x <- c ;; k" := (bind c (fun x => k))
  (at level 61, c at next level, right associativity).

Definition Math_random : M number :=
  fun w =>
    (Fin (random_source w (random_calls w)),
     mkWorld (random_source w) (S (random_calls w))
             (clock_source w) (clock_calls w)).

Definition Date_now : M number :=
  fun w =>
    (Fin (inject_Z (clock_source w (clock_calls w))),
     mkWorld (random_source w) (random_calls w)
             (clock_source w) (S (clock_calls w))).

(** [Array.from({ length: n }, () => f())]: [f] runs once per index, in
    order. *)
Fixpoint Array_from {A : Type} (n : nat) (f : M A) : M (list A) :=
  match n with
  | O => ret []
  | S m => x <- f ;; rest <- Array_from m f ;; ret (x :: rest)
  end.

(** [xs.map(x => f(x))] for a callback that draws random numbers. *)
Fixpoint mapM {A B : Type} (f : A -> M B) (xs : list A) : M (list B) :=
  match xs with
  | [] => ret []
  | x :: rest => y <- f x ;; ys <- mapM f rest ;; ret (y :: ys)
  end.

(** ** Data *)

(** [EDMTrainingData], imported from [./datasetLoader]: the fields the
    models and the generator use. *)
Record EDMTrainingData : Type := mkData {
  voltage : number;
  current : number;
  pulseOnTime : number;
  pulseOffTime : number;
  wireSpeed : number;
  dielectricFlow : number;
  d_materialRemovalRate : number;
  d_surfaceRoughness : number;
  d_dimensionalAccuracy : number;
  d_processingTime : number
}.

(** The [params: any] argument of [predict]: the six properties the
    predictors read, each a number or missing ([undefined]). *)
Record Params : Type := mkParams {
  laserPower : option number;
  speed : option number;
  thickness : option number;
  linearEnergy : option number;
  surfaceRoughness : option number;
  deviation : option number
}.

(** The empty object [{}]. *)
Definition empty_params : Params :=
  mkParams None None None None None None.

Record Prediction : Type := mkPrediction {
  materialRemovalRate : number;
  surfaceRoughness_out : number;
  dimensionalAccuracy : number;
  processingTime : number
}.

(** A closure over captured variables of type [E]: a call reads them and
    hands them back. *)
Definition Closure (E A : Type) : Type := E -> A * E.

(** [ModelResult]: the [predict] closure is kept as its code together with
    the variables it captured. *)
Record ModelResult : Type := mkModelResult {
  accuracy : number;
  trainingTime : number;
  samples : number;
  rmse : number;
  Captured : Type;
  captured : Captured;
  predict : Params -> Closure Captured Prediction
}.

(** [result.predict(params)]: the value returned, and the captured
    variables after the call. *)
Definition call (r : ModelResult) (params : Params) : Prediction :=
  fst (predict r params (captured r)).

Definition captured_after (r : ModelResult) (params : Params) : Captured r :=
  snd (predict r params (captured r)).

(** A caller that uses the closure several times: each call starts from the
    captured variables the previous call left behind. *)
Fixpoint call_all {E : Type} (predict : Params -> Closure E Prediction)
  (env : E) (ps : list Params) : list Prediction * E :=
  match ps with
  | [] => ([], env)
  | p :: rest =>
      let (out, env') := predict p env in
      let (outs, env'') := call_all predict env' rest in
      (out :: outs, env'')
  end.

(** ** Helpers at the end of the file *)

Definition calculateVariance `{MathLib} (values : list number) : number :=
  let mean := (reduce (fun sum val => sum + val) values (Fin 0)
               / length_of values)%js in
  let squaredDiffs :=
    map (fun val => Math_pow (val - mean)%js (Fin 2)) values in
  (reduce (fun sum diff => sum + diff) squaredDiffs (Fin 0)
   / length_of values)%js.

Record DataStatistics : Type := mkStats {
  correlationFactor : number;
  varianceFactor : number;
  sampleSize : number
}.

Definition calculateDataStatistics `{MathLib} (data : list EDMTrainingData)
  : DataStatistics :=
  let voltageVariance := calculateVariance (map voltage data) in
  let currentVariance := calculateVariance (map current data) in
  let mrrVariance := calculateVariance (map d_materialRemovalRate data) in
  {| correlationFactor :=
       (Math_sqrt (voltageVariance * currentVariance) / Fin 1000)%js;
     varianceFactor := (Math_sqrt mrrVariance / Fin 10)%js;
     sampleSize := length_of data |}.

(** One iteration of the loop of [generateSyntheticData]. *)
Definition synthetic_record : M EDMTrainingData :=
  r1 <- Math_random ;;
  let voltage := (lit 2.5 + r1 * lit 3.5)%js in
  r2 <- Math_random ;;
  let current := (Fin 1500 + r2 * Fin 3100)%js in
  r3 <- Math_random ;;
  let pulseOnTime := (Fin 2 + r3 * Fin 8)%js in
  r4 <- Math_random ;;
  let pulseOffTime := (Fin 33 + r4 * Fin 207)%js in
  r5 <- Math_random ;;
  let wireSpeed := (Fin 1500 + r5 * Fin 3100)%js in
  r6 <- Math_random ;;
  let dielectricFlow := (lit 0.7 + r6 * lit 0.8)%js in
  r7 <- Math_random ;;
  ret {| voltage := voltage;
         current := current;
         pulseOnTime := pulseOnTime;
         pulseOffTime := pulseOffTime;
         wireSpeed := wireSpeed;
         dielectricFlow := dielectricFlow;
         d_materialRemovalRate :=
           (voltage * current * pulseOnTime / Fin 1000)%js;
         d_surfaceRoughness := dielectricFlow;
         d_dimensionalAccuracy := (lit 0.070 + r7 * lit 0.155)%js;
         d_processingTime :=
           Math_max (Fin 1)
             (Fin 60 - current / Fin 100 - voltage * Fin 2)%js |}.

(** [for (let i = 0; i < 100; i++) { ...; data.push(...) }], with [n]
    iterations left. *)
Fixpoint synthetic_loop (n : nat) (data : list EDMTrainingData)
  : M (list EDMTrainingData) :=
  match n with
  | O => ret data
  | S m => d <- synthetic_record ;; synthetic_loop m (data ++ [d])
  end.

Definition generateSyntheticData : M (list EDMTrainingData) :=
  synthetic_loop 100 [].

(** The array the awaited [loadEDMDataset()] resolves to; the loader lives
    in [./datasetLoader]. *)
Class DatasetLoader : Type := {
  loadEDMDataset : list EDMTrainingData
}.

Definition load_data `{DatasetLoader} (useRealData : bool)
  : M (list EDMTrainingData) :=
  if useRealData then ret loadEDMDataset else generateSyntheticData.

(** The [data] a training run started in world [w] works on: every [train]
    function reads the clock once and then loads the data. *)
Definition training_data `{DatasetLoader} (useRealData : bool) (w : World)
  : list EDMTrainingData :=
  fst (load_data useRealData (snd (Date_now w))).

(** ** trainSVM *)

Record Weights : Type := mkWeights {
  w_voltage : number;
  w_current : number;
  w_pulseOn : number;
  w_pulseOff : number
}.

Definition svm_weights (data : list EDMTrainingData) : Weights :=
  let avgVoltage :=
    (reduce (fun sum d => sum + voltage d) data (Fin 0) / length_of data)%js in
  let avgCurrent :=
    (reduce (fun sum d => sum + current d) data (Fin 0) / length_of data)%js in
  let avgMRR :=
    (reduce (fun sum d => sum + d_materialRemovalRate d) data (Fin 0)
     / length_of data)%js in
  {| w_voltage := (avgMRR / avgVoltage * lit 0.8)%js;
     w_current := (avgMRR / avgCurrent * lit 1.2)%js;
     w_pulseOn := lit (-0.008);
     w_pulseOff := lit 0.003 |}.

Definition predictSVM (params : Params) : Closure Weights Prediction :=
  fun weights =>
    ({| materialRemovalRate :=
          Math_max (Fin 0)
            (w_voltage weights * (laserPower params || Fin 0)
             + w_current weights * (speed params || Fin 0) / Fin 100
             - w_pulseOn weights * (thickness params || Fin 0)
             + w_pulseOff weights * (linearEnergy params || Fin 0) / Fin 10)%js;
        surfaceRoughness_out :=
          Math_max (lit 0.1) (surfaceRoughness params || lit 1.0)%js;
        dimensionalAccuracy :=
          Math_max (Fin 1) ((deviation params || lit 0.1) * Fin 1000)%js;
        processingTime :=
          Math_max (Fin 1)
            (Fin 60 - ((speed params || Fin 1000) / Fin 100)
             - ((laserPower params || Fin 1) * Fin 2))%js |},
     weights).

Definition trainSVM `{DatasetLoader} (useRealData : bool) : M ModelResult :=
  startTime <- Date_now ;;
  data <- load_data useRealData ;;
  let weights := svm_weights data in
  r_accuracy <- Math_random ;;
  endTime <- Date_now ;;
  r_rmse <- Math_random ;;
  ret {| accuracy := (lit 0.87 + r_accuracy * lit 0.08)%js;
         trainingTime := (endTime - startTime)%js;
         samples := length_of data;
         rmse := (lit 0.12 + r_rmse * lit 0.08)%js;
         captured := weights;
         predict := predictSVM |}.

(** ** trainANN *)

Record ANNCaptured : Type := mkANN {
  hiddenWeights : list number;
  outputWeights : list number
}.

(** The four normalised inputs that ANN, ELM and GA share. *)
Definition normalised_inputs (params : Params) : list number :=
  [ ((laserPower params || Fin 3) / Fin 6)%js;
    ((speed params || Fin 3000) / Fin 5000)%js;
    ((thickness params || Fin 4) / Fin 10)%js;
    ((linearEnergy params || Fin 60) / Fin 250)%js ].

Definition predictANN `{MathLib} (params : Params)
  : Closure ANNCaptured Prediction :=
  fun c =>
    let hiddenWeights := hiddenWeights c in
    let outputWeights := outputWeights c in
    let inputs := normalised_inputs params in
    let hidden :=
      mapi (fun input i =>
              Math_tanh (input * at_index hiddenWeights i
                         + at_index hiddenWeights (i + 4))%js) inputs in
    ({| materialRemovalRate :=
          Math_max (Fin 0)
            ((at_index hidden 0 * at_index outputWeights 0
              + at_index hidden 1 * at_index outputWeights 1) * Fin 8)%js;
        surfaceRoughness_out :=
          Math_max (lit 0.1) (surfaceRoughness params || lit 1.0)%js;
        dimensionalAccuracy :=
          Math_max (Fin 1) ((deviation params || lit 0.1) * Fin 1000)%js;
        processingTime :=
          Math_max (Fin 1)
            ((at_index hidden 2 + at_index hidden 3)
             * at_index outputWeights 2 * Fin 40 + Fin 20)%js |},
     c).

Definition trainANN `{MathLib} `{DatasetLoader} (useRealData : bool)
  : M ModelResult :=
  startTime <- Date_now ;;
  data <- load_data useRealData ;;
  hiddenWeights0 <-
    Array_from 8 (r <- Math_random ;; ret (r * Fin 2 - Fin 1)%js) ;;
  outputWeights <-
    Array_from 4 (r <- Math_random ;; ret (r * Fin 2 - Fin 1)%js) ;;
  let dataStats := calculateDataStatistics data in
  (* for (i < hiddenWeights.length) hiddenWeights[i] *= correlationFactor *)
  let hiddenWeights :=
    map (fun w => (w * correlationFactor dataStats)%js) hiddenWeights0 in
  r_accuracy <- Math_random ;;
  endTime <- Date_now ;;
  r_rmse <- Math_random ;;
  ret {| accuracy := (lit 0.91 + r_accuracy * lit 0.06)%js;
         trainingTime := (endTime - startTime)%js;
         samples := length_of data;
         rmse := (lit 0.09 + r_rmse * lit 0.06)%js;
         captured := mkANN hiddenWeights outputWeights;
         predict := predictANN |}.

(** ** trainELM *)

Record ELMCaptured : Type := mkELM {
  inputWeights : list number;
  biases : list number
}.

Definition predictELM `{MathLib} (params : Params)
  : Closure ELMCaptured Prediction :=
  fun c =>
    let inputWeights := inputWeights c in
    let biases := biases c in
    let inputs := normalised_inputs params in
    let hiddenOutputs :=
      mapi (fun input i =>
              (Fin 1 / (Fin 1 + Math_exp (- (input * at_index inputWeights i
                                             + at_index biases (i mod 4)))))%js)
           inputs in
    ({| materialRemovalRate :=
          Math_max (Fin 0)
            (reducei (fun sum h i =>
                        sum + h * at_index inputWeights (i mod 4))
                     hiddenOutputs (Fin 0) * Fin 6)%js;
        surfaceRoughness_out :=
          Math_max (lit 0.1) (surfaceRoughness params || lit 1.0)%js;
        dimensionalAccuracy :=
          Math_max (Fin 1) ((deviation params || lit 0.1) * Fin 1000)%js;
        processingTime :=
          Math_max (Fin 1)
            (reducei (fun sum h i =>
                        sum + h * at_index inputWeights ((i + 12) mod 16))
                     hiddenOutputs (Fin 0) * Fin 50 + Fin 15)%js |},
     c).

Definition trainELM `{MathLib} `{DatasetLoader} (useRealData : bool)
  : M ModelResult :=
  startTime <- Date_now ;;
  data <- load_data useRealData ;;
  inputWeights0 <-
    Array_from 16 (r <- Math_random ;; ret (r * Fin 4 - Fin 2)%js) ;;
  biases <-
    Array_from 4 (r <- Math_random ;; ret (r * Fin 2 - Fin 1)%js) ;;
  let dataStats := calculateDataStatistics data in
  (* for (i < inputWeights.length) inputWeights[i] *= varianceFactor *)
  let inputWeights :=
    map (fun w => (w * varianceFactor dataStats)%js) inputWeights0 in
  r_accuracy <- Math_random ;;
  endTime <- Date_now ;;
  r_rmse <- Math_random ;;
  ret {| accuracy := (lit 0.94 + r_accuracy * lit 0.04)%js;
         trainingTime := (endTime - startTime)%js;
         samples := length_of data;
         rmse := (lit 0.06 + r_rmse * lit 0.04)%js;
         captured := mkELM inputWeights biases;
         predict := predictELM |}.

(** ** trainGA *)

Record Individual : Type := mkIndividual {
  weights : list number;
  fitness : number
}.

(** [xs.sort(cmp)]: the sort is stable, an element moves behind another
    only when the comparator is positive (a NaN counts as 0). *)
Fixpoint sort_insert {A : Type} (cmp : A -> A -> number) (x : A)
  (sorted : list A) : list A :=
  match sorted with
  | [] => [x]
  | y :: rest =>
      if gtb (cmp x y) (Fin 0)
      then y :: sort_insert cmp x rest
      else x :: y :: rest
  end.

Definition Array_sort {A : Type} (cmp : A -> A -> number) (xs : list A)
  : list A :=
  fold_right (sort_insert cmp) [] xs.

(** [xs.slice(0, n)]. *)
Definition Array_slice0 {A : Type} (n : nat) (xs : list A) : list A :=
  firstn n xs.

(** [xs.splice(start, deleteCount, ...items)], the array afterwards. *)
Definition Array_splice {A : Type} (start deleteCount : nat)
  (items xs : list A) : list A :=
  firstn start xs ++ items ++ skipn (start + deleteCount) xs.

Definition new_individual : M Individual :=
  ws <- Array_from 8 (r <- Math_random ;; ret (r * Fin 4 - Fin 2)%js) ;;
  f <- Math_random ;;
  ret {| weights := ws; fitness := f |}.

Definition make_offspring (parent : Individual) : M Individual :=
  ws <- mapM (fun w => r <- Math_random ;;
                       ret (w + (r - lit 0.5) * lit 0.1)%js)
             (weights parent) ;;
  r <- Math_random ;;
  ret {| weights := ws;
         fitness := (fitness parent * (lit 0.95 + r * lit 0.1))%js |}.

(** The body of the generation loop. *)
Definition generation (population : list Individual)
  : M (list Individual) :=
  let population :=
    Array_sort (fun a b => (fitness b - fitness a)%js) population in
  let survivors := Array_slice0 10 population in
  offspring <- mapM make_offspring survivors ;;
  ret (Array_splice 10 10 offspring population).

(** [for (generation = 0; generation < 10; generation++)], with [n]
    generations left. *)
Fixpoint evolve (n : nat) (population : list Individual)
  : M (list Individual) :=
  match n with
  | O => ret population
  | S m => population' <- generation population ;; evolve m population'
  end.

(** [population[0]]; the population always holds 20 individuals
    ([evolve_length]), so the default is never read. *)
Definition first_individual (population : list Individual) : Individual :=
  hd {| weights := []; fitness := NaN |} population.

(** The population after the generation loop. *)
Definition evolved_population : M (list Individual) :=
  population <- Array_from 20 new_individual ;;
  evolve 10 population.

Definition predictGA (params : Params) : Closure Individual Prediction :=
  fun bestIndividual =>
    let features := normalised_inputs params in
    ({| materialRemovalRate :=
          Math_max (Fin 0)
            (reducei (fun sum f i =>
                        sum + f * at_index (weights bestIndividual) i)
                     features (Fin 0) * Fin 7)%js;
        surfaceRoughness_out :=
          Math_max (lit 0.1) (surfaceRoughness params || lit 1.0)%js;
        dimensionalAccuracy :=
          Math_max (Fin 1) ((deviation params || lit 0.1) * Fin 1000)%js;
        processingTime :=
          Math_max (Fin 1)
            (reducei (fun sum f i =>
                        sum + f * at_index (weights bestIndividual) (i mod 8))
                     features (Fin 0) * Fin 45 + Fin 25)%js |},
     bestIndividual).

Definition trainGA `{DatasetLoader} (useRealData : bool) : M ModelResult :=
  startTime <- Date_now ;;
  data <- load_data useRealData ;;
  population <- evolved_population ;;
  let bestIndividual := first_individual population in
  r_accuracy <- Math_random ;;
  endTime <- Date_now ;;
  r_rmse <- Math_random ;;
  ret {| accuracy := (lit 0.89 + r_accuracy * lit 0.07)%js;
         trainingTime := (endTime - startTime)%js;
         samples := length_of data;
         rmse := (lit 0.10 + r_rmse * lit 0.07)%js;
         captured := bestIndividual;
         predict := predictGA |}.

(** ** The four kinds *)

Inductive ModelKind : Type := SVM | ANN | ELM | GA.

Definition train `{MathLib} `{DatasetLoader} (kind : ModelKind)
  (useRealData : bool) : M ModelResult :=
  match kind with
  | SVM => trainSVM useRealData
  | ANN => trainANN useRealData
  | ELM => trainELM useRealData
  | GA => trainGA useRealData
  end.

(** ** Vocabulary of the statements *)

(** Every value [Math.random()] returns lies in [0, 1). *)
Definition unit_random (w : World) : Prop :=
  forall n, 0 <= random_source w n /\ random_source w n < 1.

(** [Date.now()] never goes back. *)
Definition monotonic_clock (w : World) : Prop :=
  forall n, (clock_source w n <= clock_source w (S n))%Z.

(** What [Math.tanh] and [Math.exp] are assumed to do on finite arguments:
    [tanh] stays within [-1, 1], [exp] is never negative (it may overflow
    to Infinity). *)
Class MathLibSpec `{MathLib} : Prop := {
  Math_tanh_range :
    forall q, exists t, Math_tanh (Fin q) = Fin t /\ -1 <= t /\ t <= 1;
  Math_exp_range :
    forall q, Math_exp (Fin q) = PosInf
              \/ exists e, Math_exp (Fin q) = Fin e /\ 0 <= e
}.


Definition in_closed_range (lo hi : Q) (v : number) : bool :=
  geb v (lit lo) && leb v (lit hi).

(** A property of [params] that is missing, or a finite number of magnitude
    at most 2^100. *)
Definition modest_field (v : option number) : bool :=
  match v with
  | Some n => within (pow2 100) n
  | None => true
  end.

Definition modest_params (p : Params) : bool :=
  modest_field (laserPower p) && modest_field (speed p)
  && modest_field (thickness p) && modest_field (linearEnergy p)
  && modest_field (surfaceRoughness p) && modest_field (deviation p).

(** The four floors of a prediction. *)
Definition floors (out : Prediction) : bool :=
  geb (materialRemovalRate out) (Fin 0)
  && geb (surfaceRoughness_out out) (lit 0.1)
  && geb (dimensionalAccuracy out) (Fin 1)
  && geb (processingTime out) (Fin 1).

(** The coefficients a model of [kind] derives from [data] are finite
    numbers of magnitude at most 2^100: the two averaged weights of the SVM,
    the correlation factor of the ANN, the variance factor of the ELM. The
    GA derives nothing from the data. *)
Definition modest_coefficients `{MathLib} (kind : ModelKind)
  (data : list EDMTrainingData) : bool :=
  match kind with
  | SVM => within (pow2 100) (w_voltage (svm_weights data))
           && within (pow2 100) (w_current (svm_weights data))
  | ANN => within (pow2 100) (correlationFactor (calculateDataStatistics data))
  | ELM => within (pow2 100) (varianceFactor (calculateDataStatistics data))
  | GA => true
  end.

(** [params] with its [thickness] replaced. *)
Definition with_thickness (p : Params) (t : option number) : Params :=
  mkParams (laserPower p) (speed p) t (linearEnergy p)
    (surfaceRoughness p) (deviation p).

(** The ranges the specification gives for the five inputs of a synthetic
    record. *)
Definition in_declared_ranges (d : EDMTrainingData) : bool :=
  in_closed_range 2.5 6.0 (voltage d)
  && in_closed_range 1500 4600 (current d)
  && in_closed_range 2 10 (pulseOnTime d)
  && in_closed_range 33 240 (pulseOffTime d)
  && in_closed_range 0.7 1.5 (dielectricFlow d).

(** An individual of the GA after [g] generations carries eight weights of
    magnitude at most 2 + g. *)
Definition weights_within (g : nat) (i : Individual) : bool :=
  Nat.eqb (List.length (weights i)) 8
  && forallb (within (inject_Z (Z.of_nat (2 + g)))) (weights i).

(** [params] with every field that is 0 or NaN removed. *)
Definition drop_falsy_field (v : option number) : option number :=
  match v with
  | Some n => if truthy n then Some n else None
  | None => None
  end.

Definition drop_falsy (p : Params) : Params :=
  mkParams (drop_falsy_field (laserPower p)) (drop_falsy_field (speed p))
    (drop_falsy_field (thickness p)) (drop_falsy_field (linearEnergy p))
    (drop_falsy_field (surfaceRoughness p)) (drop_falsy_field (deviation p)).

(** An individual with eight weights. *)
Definition eight_weights (i : Individual) : Prop :=
  List.length (weights i) = 8%nat.

(** The world after [n] more draws and [m] more readings of the clock. *)
Definition advance (n m : nat) (w : World) : World :=
  mkWorld (random_source w) (random_calls w + n)
          (clock_source w) (clock_calls w + m).

(** The [j]-th value [Math.random()] returns from world [w] on. *)
Definition draw (w : World) (j : nat) : number :=
  Fin (random_source w (random_calls w + j)).

(** Started in a world that satisfies [I], the run [c] returns a value that
    satisfies [P] and leaves a world that satisfies [I]. *)
Definition holds {A : Type} (I : World -> Prop) (c : M A) (P : A -> Prop)
  : Prop :=
  forall w, I w -> P (fst (c w)) /\ I (snd (c w)).

(** [c] draws [n] random numbers and reads the clock [m] times. *)
Definition draws {A : Type} (c : M A) (n m : nat) : Prop :=
  forall w, snd (c w) = advance n m w.

(** The random numbers a training run of [kind] draws. *)
Definition draws_of (kind : ModelKind) (useRealData : bool) : nat :=
  (if useRealData then 0 else 700)
  + match kind with
    | SVM => 2
    | ANN => 14
    | ELM => 22
    | GA => 1082
    end.

(** ** Instances to run the model on *)

(** Rational stand-ins for the functions of [Math], with the ranges
    [MathLibSpec] asks for. *)
Definition rational_tanh (x : number) : number :=
  match x with
  | Fin q => round64 (q / (1 + Qabs q))
  | PosInf => Fin 1
  | NegInf => Fin (-1)
  | NaN => NaN
  end.

Definition rational_exp (x : number) : number :=
  match x with
  | Fin q => if Qle_bool 0 q then round64 (1 + q) else round64 (1 / (1 - q))
  | PosInf => PosInf
  | NegInf => Fin 0
  | NaN => NaN
  end.

Definition rational_sqrt (x : number) : number :=
  match x with
  | Fin q => if Qle_bool 0 q then round64 ((q + 1) / 2) else NaN
  | PosInf => PosInf
  | _ => NaN
  end.

Definition rational_math : MathLib :=
  {| Math_sqrt := rational_sqrt;
     Math_tanh := rational_tanh;
     Math_exp := rational_exp;
     Math_pow := fun x _ => mul x x |}.

(** A loader that resolves to two records. *)
Definition two_records : DatasetLoader :=
  {| loadEDMDataset :=
       [ mkData (Fin 3) (Fin 2000) (Fin 4) (Fin 60) (Fin 2000) (Fin 1)
           (Fin 24) (Fin 1) (lit 0.1) (Fin 34);
         mkData (Fin 5) (Fin 4000) (Fin 8) (Fin 120) (Fin 4000) (lit 1.2)
           (Fin 160) (lit 1.2) (lit 0.2) (Fin 10) ] |}.

(** A loader that resolves to one record, with voltage 1, current 1 and
    materialRemovalRate 100. *)
Definition one_record : DatasetLoader :=
  {| loadEDMDataset :=
       [ mkData (Fin 1) (Fin 1) (Fin 1) (Fin 1) (Fin 1) (Fin 1)
           (Fin 100) (Fin 1) (Fin 1) (Fin 1) ] |}.

(** A loader that resolves to one record whose materialRemovalRate is
    1e308. *)
Definition huge_record : DatasetLoader :=
  {| loadEDMDataset :=
       [ mkData (Fin 1) (Fin 1) (Fin 1) (Fin 1) (Fin 1) (Fin 1)
           (lit 1e308) (Fin 1) (Fin 1) (Fin 1) ] |}.

(** A loader that resolves to the empty array. *)
Definition no_records : DatasetLoader := {| loadEDMDataset := [] |}.

(** The world in which [Math.random()] always returns [r] and the clock
    advances by one millisecond per reading. *)
Definition constant_world (r : Q) : World :=
  mkWorld (fun _ => r) 0 (fun n => Z.of_nat n) 0.


(** ** The two outputs every kind computes the same way, in the words of
    the specification *)

Definition spec_surfaceRoughness (params : Params) : number :=
  let input :=
    match surfaceRoughness params with
    | Some v => if truthy v then v else lit 1.0
    | None => lit 1.0
    end in
  Math_max (lit 0.1) input.

Definition spec_dimensionalAccuracy (params : Params) : number :=
  let input :=
    match deviation params with
    | Some v => if truthy v then v else lit 0.1
    | None => lit 0.1
    end in
  Math_max (Fin 1) (input * Fin 1000)%js.

End AiModels.

(* ===================================================================== *)
(** * src/components/ParameterPanel.tsx                                    *)
(* ===================================================================== *)

Module ParameterPanel.
Import JS.

(** What a handler passes to [onParameterChange]: the selects pass strings
    ([as any]), the sliders numbers; an array read out of range gives
    [undefined]. *)
Inductive Value : Type :=
| Str (s : string)
| Num (n : number)
| Undefined.

Record EDMParameters : Type := mkParameters {
  material : string;
  grade : string;
  thickness : number;
  laserPower : number;
  speed : number;
  gasAndPressure : string;
  surfaceRoughness : number;
  deviation : number;
  kerfTaper : number;
  hazDepth : number;
  linearEnergy : number
}.

Definition materialOptions : list string :=
  ["Mild Steel"; "Stainless Steel"; "Aluminium"; "Titanium"]%string.

(** The object literal [gradeOptions], as the list of its own properties. *)
Definition gradeOptions : list (string * list string) :=
  [ ("Mild Steel", ["S355JR"]);
    ("Stainless Steel", ["AISI 304"]);
    ("Aluminium", ["Al-6061"]);
    ("Titanium", ["Ti6Al4V"]) ]%string.

Definition gasOptions : list string :=
  ["O₂ @ 0.40 bar"; "N₂ @ 1.0 bar"; "N₂ @ 1.2 bar"; "N₂ @ 1.5 bar"]%string.

(** An entry of [parameterConfigs]; [icon] and [color] only style the
    slider. *)
Record ParameterConfig : Type := mkConfig {
  key : string;
  label : string;
  min : Q;
  max : Q;
  step : Q
}.

Definition parameterConfigs : list ParameterConfig :=
  [ mkConfig "thickness" "Thickness (mm)" 2 10 0.5;
    mkConfig "laserPower" "Laser Power (kW)" 2.5 6.0 0.1;
    mkConfig "speed" "Feed Rate (mm/min)" 500 5000 25;
    mkConfig "surfaceRoughness" "Ra (µm)" 0.7 1.5 0.1;
    mkConfig "deviation" "Deviation (mm)" 0.070 0.225 0.005;
    mkConfig "kerfTaper" "Kerf Taper (mm)" 0.01 0.21 0.01;
    mkConfig "hazDepth" "HAZ Depth (µm)" 15 320 5;
    mkConfig "linearEnergy" "Linear Energy (J/mm)" 33 240 1 ]%string.

(** [obj[key]] on an object literal: [None] stands for [undefined].
    Properties inherited from [Object.prototype] are not modelled. *)
Fixpoint get_property {A : Type} (obj : list (string * A)) (k : string)
  : option A :=
  match obj with
  | [] => None
  | (k', v) :: rest => if String.eqb k k' then Some v else get_property rest k
  end.

(** [xs[0]] on an array of strings. *)
Definition first_of (xs : list string) : Value :=
  match xs with
  | [] => Undefined
  | x :: _ => Str x
  end.

Section Handlers.

(** The parent that owns the parameters is not part of the component: it is
    any state with the [onParameterChange] it passes down. *)
Variable Parent : Type.
Variable onParameterChange : string -> Value -> Parent -> Parent.

(** [onChange] of the material select, with [value] for [e.target.value].
    [None] is the TypeError that [gradeOptions[newMaterial][0]] throws when
    the material has no entry; it is thrown before [onParameterChange] is
    called, so the parent is left as it was. *)
Definition material_onChange (value : string) (parent : Parent)
  : option Parent :=
  let newMaterial := value in
  match get_property gradeOptions newMaterial with
  | None => None
  | Some grades =>
      let newGrade := first_of grades in
      let parent := onParameterChange "material" (Str newMaterial) parent in
      Some (onParameterChange "grade" newGrade parent)
  end.

(** [onChange] of the grade select. *)
Definition grade_onChange (value : string) (parent : Parent) : Parent :=
  onParameterChange "grade" (Str value) parent.

(** [onChange] of the slider of [config], with [value] for
    [parseFloat(e.target.value)]. *)
Definition slider_onChange (config : ParameterConfig) (value : number)
  (parent : Parent) : Parent :=
  onParameterChange (key config) (Num value) parent.

(** [onChange] of the gas and pressure select. *)
Definition gas_onChange (value : string) (parent : Parent) : Parent :=
  onParameterChange "gasAndPressure" (Str value) parent.

(** The options the grade select offers:
    [gradeOptions[parameters.material]?.map(...)], nothing when the material
    has no entry. *)
Definition grade_select_options (parameters : EDMParameters) : list string :=
  match get_property gradeOptions (material parameters) with
  | None => []
  | Some grades => grades
  end.

End Handlers.

(** Modelled from the spec: the parent's [onParameterChange] is not in the
    sources; section 4.3 says an update sets the named field directly. A
    value of the wrong sort for the field is ignored here. *)
Definition update_parameters (k : string) (v : Value) (p : EDMParameters)
  : EDMParameters :=
  let str (old : string) := match v with Str s => s | _ => old end in
  let num (old : number) := match v with Num n => n | _ => old end in
  if String.eqb k "material" then
    mkParameters (str (material p)) (grade p) (thickness p) (laserPower p)
      (speed p) (gasAndPressure p) (surfaceRoughness p) (deviation p)
      (kerfTaper p) (hazDepth p) (linearEnergy p)
  else if String.eqb k "grade" then
    mkParameters (material p) (str (grade p)) (thickness p) (laserPower p)
      (speed p) (gasAndPressure p) (surfaceRoughness p) (deviation p)
      (kerfTaper p) (hazDepth p) (linearEnergy p)
  else if String.eqb k "thickness" then
    mkParameters (material p) (grade p) (num (thickness p)) (laserPower p)
      (speed p) (gasAndPressure p) (surfaceRoughness p) (deviation p)
      (kerfTaper p) (hazDepth p) (linearEnergy p)
  else if String.eqb k "laserPower" then
    mkParameters (material p) (grade p) (thickness p) (num (laserPower p))
      (speed p) (gasAndPressure p) (surfaceRoughness p) (deviation p)
      (kerfTaper p) (hazDepth p) (linearEnergy p)
  else if String.eqb k "speed" then
    mkParameters (material p) (grade p) (thickness p) (laserPower p)
      (num (speed p)) (gasAndPressure p) (surfaceRoughness p) (deviation p)
      (kerfTaper p) (hazDepth p) (linearEnergy p)
  else if String.eqb k "gasAndPressure" then
    mkParameters (material p) (grade p) (thickness p) (laserPower p)
      (speed p) (str (gasAndPressure p)) (surfaceRoughness p) (deviation p)
      (kerfTaper p) (hazDepth p) (linearEnergy p)
  else if String.eqb k "surfaceRoughness" then
    mkParameters (material p) (grade p) (thickness p) (laserPower p)
      (speed p) (gasAndPressure p) (num (surfaceRoughness p)) (deviation p)
      (kerfTaper p) (hazDepth p) (linearEnergy p)
  else if String.eqb k "deviation" then
    mkParameters (material p) (grade p) (thickness p) (laserPower p)
      (speed p) (gasAndPressure p) (surfaceRoughness p) (num (deviation p))
      (kerfTaper p) (hazDepth p) (linearEnergy p)
  else if String.eqb k "kerfTaper" then
    mkParameters (material p) (grade p) (thickness p) (laserPower p)
      (speed p) (gasAndPressure p) (surfaceRoughness p) (deviation p)
      (num (kerfTaper p)) (hazDepth p) (linearEnergy p)
  else if String.eqb k "hazDepth" then
    mkParameters (material p) (grade p) (thickness p) (laserPower p)
      (speed p) (gasAndPressure p) (surfaceRoughness p) (deviation p)
      (kerfTaper p) (num (hazDepth p)) (linearEnergy p)
  else if String.eqb k "linearEnergy" then
    mkParameters (material p) (grade p) (thickness p) (laserPower p)
      (speed p) (gasAndPressure p) (surfaceRoughness p) (deviation p)
      (kerfTaper p) (hazDepth p) (num (linearEnergy p))
  else p.

(** Parameters to run the handlers on. *)
Definition sample_parameters : EDMParameters :=
  mkParameters "Mild Steel" "S355JR" (Fin 4) (Fin 3) (Fin 3000)
    "N₂ @ 1.0 bar" (Fin 1) (lit 0.1) (lit 0.05) (Fin 100) (Fin 60).

(** [v] lies between the [min] and the [max] of the slider of [k]. *)
Definition within_slider (k : string) (v : number) : bool :=
  match find (fun c => String.eqb (key c) k) parameterConfigs with
  | Some c => AiModels.in_closed_range (min c) (max c) v
  | None => false
  end.

(** The parameters the sliders hand to a predictor's [predict]. *)
Definition to_params (p : EDMParameters) : AiModels.Params :=
  AiModels.mkParams (Some (laserPower p)) (Some (speed p))
    (Some (thickness p)) (Some (linearEnergy p))
    (Some (surfaceRoughness p)) (Some (deviation p)).

End ParameterPanel.

(* ===================================================================== *)
(** * The AI model panel component                                         *)
(* ===================================================================== *)

Module AIModelPanel.
Import JS.
Import AiModels.

(** A record of [generateTrainingData]. *)
Record TrainingRecord : Type := mkRecord {
  voltage : number;
  current : number;
  pulseOn : number;
  pulseOff : number;
  materialRemovalRate : number;
  surfaceRoughness : number;
  accuracy : number
}.

(** One iteration of the loop of [generateTrainingData]: the properties of
    the object literal are evaluated in order. *)
Definition training_record : M TrainingRecord :=
  r1 <- Math_random ;;
  r2 <- Math_random ;;
  r3 <- Math_random ;;
  r4 <- Math_random ;;
  r5 <- Math_random ;;
  r6 <- Math_random ;;
  r7 <- Math_random ;;
  ret {| voltage := (Fin 20 + r1 * Fin 280)%js;
         current := (Fin 1 + r2 * Fin 49)%js;
         pulseOn := (lit 0.5 + r3 * lit 99.5)%js;
         pulseOff := (Fin 1 + r4 * Fin 199)%js;
         materialRemovalRate := (r5 * Fin 10)%js;
         surfaceRoughness := (r6 * Fin 5)%js;
         accuracy := (lit 0.8 + r7 * lit 0.2)%js |}.

Fixpoint training_loop (n : nat) (data : list TrainingRecord)
  : M (list TrainingRecord) :=
  match n with
  | O => ret data
  | S m => d <- training_record ;; training_loop m (data ++ [d])
  end.

Definition generateTrainingData : M (list TrainingRecord) :=
  training_loop 100 [].

(** The [id]s of the array [models], in order. *)
Definition models : list string := ["SVM"; "ANN"; "ELM"; "GA"]%string.

(** An interval set by [handleTrainModel] and not yet cleared. Its callback
    closes over the [selectedModel] of the render in which the button was
    clicked. *)
Record Interval : Type := mkInterval {
  interval_id : nat;
  delay : number;
  closure_selectedModel : string
}.

(** The three state variables of the component, the intervals that are set,
    and the calls made so far to the prop [onTrainModel], oldest first. *)
Record State : Type := mkState {
  selectedModel : string;
  trainingProgress : number;
  isTraining : bool;
  intervals : list Interval;
  next_interval_id : nat;
  onTrainModel_calls : list (string * list TrainingRecord)
}.

(** The state of the first render. *)
Definition initial : State :=
  {| selectedModel := "SVM";
     trainingProgress := Fin 0;
     isTraining := false;
     intervals := [];
     next_interval_id := 0;
     onTrainModel_calls := [] |}.

Definition setSelectedModel (id : string) (st : State) : State :=
  {| selectedModel := id;
     trainingProgress := trainingProgress st;
     isTraining := isTraining st;
     intervals := intervals st;
     next_interval_id := next_interval_id st;
     onTrainModel_calls := onTrainModel_calls st |}.

Definition setTrainingProgress (v : number) (st : State) : State :=
  {| selectedModel := selectedModel st;
     trainingProgress := v;
     isTraining := isTraining st;
     intervals := intervals st;
     next_interval_id := next_interval_id st;
     onTrainModel_calls := onTrainModel_calls st |}.

Definition setIsTraining (b : bool) (st : State) : State :=
  {| selectedModel := selectedModel st;
     trainingProgress := trainingProgress st;
     isTraining := b;
     intervals := intervals st;
     next_interval_id := next_interval_id st;
     onTrainModel_calls := onTrainModel_calls st |}.

(** [setInterval(callback, ms)]: the new interval gets a fresh id. *)
Definition setInterval (ms : number) (st : State) : State :=
  {| selectedModel := selectedModel st;
     trainingProgress := trainingProgress st;
     isTraining := isTraining st;
     intervals :=
       intervals st
       ++ [mkInterval (next_interval_id st) ms (selectedModel st)];
     next_interval_id := S (next_interval_id st);
     onTrainModel_calls := onTrainModel_calls st |}.

Definition clearInterval (id : nat) (st : State) : State :=
  {| selectedModel := selectedModel st;
     trainingProgress := trainingProgress st;
     isTraining := isTraining st;
     intervals :=
       filter (fun i => negb (Nat.eqb (interval_id i) id)) (intervals st);
     next_interval_id := next_interval_id st;
     onTrainModel_calls := onTrainModel_calls st |}.

Definition onTrainModel (modelType : string) (data : list TrainingRecord)
  (st : State) : State :=
  {| selectedModel := selectedModel st;
     trainingProgress := trainingProgress st;
     isTraining := isTraining st;
     intervals := intervals st;
     next_interval_id := next_interval_id st;
     onTrainModel_calls := onTrainModel_calls st ++ [(modelType, data)] |}.

Definition handleTrainModel (st : State) : State :=
  let st := setIsTraining true st in
  let st := setTrainingProgress (Fin 0) st in
  setInterval (Fin 50) st.

(** The callback of interval [i]: it hands [setTrainingProgress] an updater,
    which runs once on the current progress [prev]. *)
Definition interval_callback (i : Interval) (st : State) : M State :=
  let prev := trainingProgress st in
  if geb prev (Fin 100) then
    let st := clearInterval (interval_id i) st in
    let st := setIsTraining false st in
    data <- generateTrainingData ;;
    let st := onTrainModel (closure_selectedModel i) data st in
    ret (setTrainingProgress (Fin 100) st)
  else
    ret (setTrainingProgress (prev + Fin 2)%js st).

(** What can happen to the rendered component: a click on the button of a
    model, a click on the train button, and the timer firing an interval.
    Each is handled on the render that follows the previous one. *)
Inductive Event : Type :=
| ClickModel (id : string)
| ClickTrain
| Tick (id : nat).

(** The train button carries [disabled={isTraining}]: a click on a disabled
    button runs no handler. *)
Definition trainButton_onClick (st : State) : State :=
  if isTraining st then st else handleTrainModel st.

(** A button exists for each entry of [models] and for nothing else. *)
Definition modelButton_onClick (id : string) (st : State) : State :=
  if existsb (String.eqb id) models then setSelectedModel id st else st.

Definition find_interval (id : nat) (st : State) : option Interval :=
  find (fun i => Nat.eqb (interval_id i) id) (intervals st).

Definition step (e : Event) (st : State) : M State :=
  match e with
  | ClickModel id => ret (modelButton_onClick id st)
  | ClickTrain => ret (trainButton_onClick st)
  | Tick id =>
      match find_interval id st with
      | Some i => interval_callback i st
      | None => ret st
      end
  end.

Fixpoint run (events : list Event) (st : State) : M State :=
  match events with
  | [] => ret st
  | e :: rest => st' <- step e st ;; run rest st'
  end.

(** ** Vocabulary of the statements *)

(** The state while the run started from the idle state [st0] has seen [k]
    ticks and is not over: the interval closes over the model selected at
    the click, [selected] is the model selected now. *)
Definition running (st0 : State) (selected : string) (k : nat) : State :=
  {| selectedModel := selected;
     trainingProgress := Fin (inject_Z (2 * Z.of_nat k));
     isTraining := true;
     intervals :=
       [mkInterval (next_interval_id st0) (Fin 50) (selectedModel st0)];
     next_interval_id := S (next_interval_id st0);
     onTrainModel_calls := onTrainModel_calls st0 |}.

(** The state when that run is over, [data] being what was generated. *)
Definition finished (st0 : State) (selected : string)
  (data : list TrainingRecord) : State :=
  {| selectedModel := selected;
     trainingProgress := Fin 100;
     isTraining := false;
     intervals := [];
     next_interval_id := S (next_interval_id st0);
     onTrainModel_calls :=
       onTrainModel_calls st0 ++ [(selectedModel st0, data)] |}.

(** An event that is a click, or the tick of interval [id]. *)
Definition click_or_tick (id : nat) (e : Event) : bool :=
  match e with
  | Tick j => Nat.eqb j id
  | _ => true
  end.

Definition is_tick (e : Event) : bool :=
  match e with
  | Tick _ => true
  | _ => false
  end.

(** The ranges of the seven fields of a generated record. *)
Definition record_ranges (d : TrainingRecord) : bool :=
  in_closed_range 20 300 (voltage d)
  && in_closed_range 1 50 (current d)
  && in_closed_range 0.5 100 (pulseOn d)
  && in_closed_range 1 200 (pulseOff d)
  && in_closed_range 0 10 (materialRemovalRate d)
  && in_closed_range 0 5 (surfaceRoughness d)
  && in_closed_range 0.8 1 (accuracy d).

(** What every reachable state satisfies: at most one interval is set, one
    is set exactly while [isTraining] holds, the progress is an even whole
    number from 0 to 100, the selected model is one of [models], and every
    call made to [onTrainModel] names one of [models] and carries 100
    records. *)
Definition consistent (st : State) : Prop :=
  (List.length (intervals st) <= 1)%nat
  /\ (isTraining st = true <-> intervals st <> [])
  /\ Forall (fun i => (interval_id i < next_interval_id st)%nat
                      /\ delay i = Fin 50
                      /\ In (closure_selectedModel i) models)
       (intervals st)
  /\ (exists n : nat,
        trainingProgress st = Fin (inject_Z (2 * Z.of_nat n))
        /\ (n <= 50)%nat)
  /\ In (selectedModel st) models
  /\ Forall (fun call => In (fst call) models
                         /\ List.length (snd call) = 100%nat)
       (onTrainModel_calls st).

End AIModelPanel.

(* ===================================================================== *)
(** * Theorems                                                            *)
(* ===================================================================== *)

Unset Implicit Arguments.

(* ===================================================================== *)
(** * Rounding to binary64                                                 *)
(* ===================================================================== *)

Module RoundingFacts.
Import JS.
Local Open Scope Q_scope.

Ltac qdiv := unfold Qdiv in *; cbn [Qinv Qnum Qden] in *.

(** ** Powers of two *)

Lemma pow2_pos (k : Z) : 0 < pow2 k.
Proof. apply Qpower_0_lt. reflexivity. Qed.

Lemma pow2_plus (a b : Z) : pow2 (a + b) == pow2 a * pow2 b.
Proof. apply Qpower_plus. discriminate. Qed.

Lemma pow2_succ (a : Z) : pow2 (a + 1) == pow2 a * 2.
Proof. rewrite pow2_plus. reflexivity. Qed.

Lemma pow2_le (a b : Z) : (a <= b)%Z -> pow2 a <= pow2 b.
Proof. intros. apply Qpower_le_compat_l; [assumption | discriminate]. Qed.

Lemma pow2_lt (a b : Z) : (a < b)%Z -> pow2 a < pow2 b.
Proof. intros. apply Qpower_lt_compat_l; [assumption | reflexivity]. Qed.

Lemma pow2_lt_inv (a b : Z) : pow2 a < pow2 b -> (a < b)%Z.
Proof. intros. apply (Qpower_lt_compat_l_inv 2); [assumption | reflexivity]. Qed.

Lemma pow2_Z (k : Z) : (0 <= k)%Z -> pow2 k == inject_Z (2 ^ k).
Proof. intros H. symmetry. apply (Zpower_Qpower 2 k H). Qed.

Lemma pow2_minus (a b : Z) : pow2 (a - b) * pow2 b == pow2 a.
Proof.
  rewrite <- pow2_plus. replace (a - b + b)%Z with a by lia. reflexivity.
Qed.

(** ** The binary exponent *)

Lemma ilog2_spec (x : Q) :
  0 < x -> pow2 (ilog2 x) <= x /\ x < pow2 (ilog2 x + 1).
Proof.
  intros Hx. destruct x as [n d]. unfold ilog2. cbn [Qnum Qden].
  assert (Hn : (0 < n)%Z) by (unfold Qlt in Hx; cbn in Hx; lia).
  destruct (Z.log2_spec n Hn) as [Ha1 Ha2].
  destruct (Z.log2_spec (Zpos d) eq_refl) as [Hb1 Hb2].
  pose proof (Z.log2_nonneg n) as Ha0.
  pose proof (Z.log2_nonneg (Zpos d)) as Hb0.
  set (a := Z.log2 n) in *. set (b := Z.log2 (Zpos d)) in *.
  unfold Z.succ in *.
  pose proof (pow2_Z a Ha0) as HA.
  pose proof (pow2_Z b Hb0) as HB.
  pose proof (pow2_succ a) as HA'.
  pose proof (pow2_succ b) as HB'.
  rewrite (pow2_Z (a + 1)) in HA' by lia.
  rewrite (pow2_Z (b + 1)) in HB' by lia.
  rewrite Zle_Qle in Ha1, Hb1. rewrite Zlt_Qlt in Ha2, Hb2.
  rewrite <- HA in Ha1. rewrite HA' in Ha2.
  rewrite <- HB in Hb1. rewrite HB' in Hb2.
  pose proof (pow2_minus a b) as HP.
  pose proof (pow2_succ (a - b)) as HP1.
  pose proof (pow2_succ (a - b - 1)) as HP2.
  replace (a - b - 1 + 1)%Z with (a - b)%Z in * by lia.
  pose proof (pow2_pos a) as PA. pose proof (pow2_pos b) as PB.
  pose proof (pow2_pos (a - b)) as PP.
  pose proof (pow2_pos (a - b - 1)) as PP'.
  assert (HxD : (n # d) * inject_Z (Zpos d) == inject_Z n).
  { rewrite Qmake_Qdiv. field. discriminate. }
  assert (HD : 0 < inject_Z (Zpos d)) by reflexivity.
  set (x := n # d) in *. set (N := inject_Z n) in *.
  set (D := inject_Z (Zpos d)) in *.
  set (A := pow2 a) in *. set (B := pow2 b) in *.
  set (P := pow2 (a - b)) in *. set (P' := pow2 (a - b - 1)) in *.
  assert (Hup : x < P * 2).
  { destruct (Qlt_le_dec x (P * 2)) as [|Hc]; [assumption | exfalso].
    assert (P * 2 * D <= x * D) by (apply Qmult_le_compat_r; lra).
    assert (P * B <= P * D) by (apply Qmult_le_l; lra).
    lra. }
  assert (Hlow : P' <= x).
  { destruct (Qlt_le_dec x P') as [Hc|]; [exfalso | assumption].
    assert (x * D < P' * D) by (apply Qmult_lt_compat_r; lra).
    assert (P' * D < P' * (B * 2)) by (apply Qmult_lt_l; lra).
    rewrite HP2 in HP. lra. }
  destruct (Qle_bool P x) eqn:E.
  - apply Qle_bool_iff in E. rewrite HP1. split; assumption.
  - assert (x < P).
    { destruct (Qlt_le_dec x P) as [|Hc]; [assumption |].
      apply Qle_bool_iff in Hc. congruence. }
    replace (a - b - 1 + 1)%Z with (a - b)%Z by lia.
    split; assumption.
Qed.

Lemma ilog2_unique (x : Q) (e : Z) :
  pow2 e <= x -> x < pow2 (e + 1) -> ilog2 x = e.
Proof.
  intros H1 H2. pose proof (pow2_pos e) as He.
  destruct (ilog2_spec x) as [H3 H4]; [lra |].
  assert (pow2 (ilog2 x) < pow2 (e + 1)) by lra.
  assert (pow2 e < pow2 (ilog2 x + 1)) by lra.
  apply pow2_lt_inv in H, H0. lia.
Qed.

Lemma ilog2_le (x y : Q) : 0 < x -> x <= y -> (ilog2 x <= ilog2 y)%Z.
Proof.
  intros Hx Hxy.
  destruct (ilog2_spec x Hx) as [H1 _].
  destruct (ilog2_spec y) as [_ H2]; [lra |].
  assert (pow2 (ilog2 x) < pow2 (ilog2 y + 1)) by lra.
  apply pow2_lt_inv in H. lia.
Qed.

Lemma ilog2_pow2 (k : Z) : ilog2 (pow2 k) = k.
Proof.
  apply ilog2_unique; [lra |]. apply pow2_lt. lia.
Qed.

(** ** Rounding to the nearest integer *)

Lemma round_half_even_floor (z : Q) :
  round_half_even z = Qfloor z \/ round_half_even z = (Qfloor z + 1)%Z.
Proof.
  unfold round_half_even.
  destruct (z - inject_Z (Qfloor z) ?= 1 # 2); [| auto | auto].
  destruct (Z.even (Qfloor z)); auto.
Qed.

Lemma round_half_even_le (z1 z2 : Q) :
  z1 <= z2 -> (round_half_even z1 <= round_half_even z2)%Z.
Proof.
  intros H. pose proof (Qfloor_resp_le _ _ H) as Hf.
  destruct (Z.eq_dec (Qfloor z1) (Qfloor z2)) as [E | E].
  - unfold round_half_even. rewrite E.
    destruct (Qcompare_spec (z1 - inject_Z (Qfloor z2)) (1 # 2));
      destruct (Qcompare_spec (z2 - inject_Z (Qfloor z2)) (1 # 2));
      try (destruct (Z.even (Qfloor z2))); try lia; exfalso; lra.
  - destruct (round_half_even_floor z1), (round_half_even_floor z2); lia.
Qed.

Lemma round_half_even_Z (n : Z) : round_half_even (inject_Z n) = n.
Proof.
  unfold round_half_even. rewrite Qfloor_Z.
  destruct (Qcompare_spec (inject_Z n - inject_Z n) (1 # 2));
    [exfalso; lra | reflexivity | exfalso; lra].
Qed.

Lemma round_half_even_comp (z1 z2 : Q) :
  z1 == z2 -> round_half_even z1 = round_half_even z2.
Proof.
  intros H. apply Z.le_antisymm; apply round_half_even_le; lra.
Qed.

(** ** Rounding a positive rational *)

Lemma quantum_le (x y : Q) : 0 < x -> x <= y -> (quantum x <= quantum y)%Z.
Proof.
  intros Hx Hxy. unfold quantum. pose proof (ilog2_le x y Hx Hxy). lia.
Qed.

Lemma scaled (x : Q) (q : Z) : x / pow2 q * pow2 q == x.
Proof.
  pose proof (pow2_pos q). field. lra.
Qed.

Lemma scaled_le (x y : Q) (q : Z) : x <= y -> x / pow2 q <= y / pow2 q.
Proof.
  intros H. pose proof (pow2_pos q) as Hq.
  apply Qle_shift_div_l; [assumption |]. rewrite scaled. assumption.
Qed.

Lemma round_value_comp (x y : Q) :
  0 < x -> x == y -> round_value x == round_value y.
Proof.
  intros Hx H. unfold round_value, quantum.
  assert (E : ilog2 x = ilog2 y).
  { destruct (ilog2_spec y); [lra |]. apply ilog2_unique; lra. }
  rewrite E.
  rewrite (round_half_even_comp
             (x / pow2 (Z.max (ilog2 y - 52) (-1074)))
             (y / pow2 (Z.max (ilog2 y - 52) (-1074)))).
  - reflexivity.
  - rewrite H. reflexivity.
Qed.

Lemma round_value_le (x y : Q) :
  0 < x -> x <= y -> round_value x <= round_value y.
Proof.
  intros Hx Hxy. pose proof (quantum_le x y Hx Hxy) as Hq.
  unfold round_value.
  destruct (Z.eq_dec (quantum x) (quantum y)) as [E | E].
  - rewrite E. apply Qmult_le_compat_r; [| pose proof (pow2_pos (quantum y)); lra].
    rewrite <- Zle_Qle. apply round_half_even_le. apply scaled_le. assumption.
  - assert (Hy : quantum y = (ilog2 y - 52)%Z) by (unfold quantum in *; lia).
    assert (Hxe : (ilog2 x + 1 <= ilog2 y)%Z) by (unfold quantum in *; lia).
    destruct (ilog2_spec x Hx) as [_ Hx2].
    destruct (ilog2_spec y) as [Hy1 _]; [lra |].
    pose proof (pow2_le _ _ Hxe) as Hp.
    apply Qle_trans with (pow2 (ilog2 y)).
    + (* the rounded [x] is at most 2^(ilog2 y) *)
      assert (Hk : (0 <= ilog2 y - quantum x)%Z) by lia.
      assert (Hs : x / pow2 (quantum x) <= inject_Z (2 ^ (ilog2 y - quantum x))).
      { rewrite <- pow2_Z by assumption.
        apply Qle_shift_div_r; [apply pow2_pos |].
        rewrite pow2_minus. lra. }
      apply round_half_even_le in Hs. rewrite round_half_even_Z in Hs.
      rewrite Zle_Qle in Hs. rewrite <- pow2_Z in Hs by assumption.
      rewrite <- (pow2_minus (ilog2 y) (quantum x)).
      apply Qmult_le_compat_r; [assumption |].
      pose proof (pow2_pos (quantum x)); lra.
    + (* and the rounded [y] at least that *)
      assert (Hs : inject_Z (2 ^ 52) <= y / pow2 (quantum y)).
      { rewrite <- pow2_Z by lia.
        apply Qle_shift_div_l; [apply pow2_pos |].
        rewrite Hy. replace 52%Z with (ilog2 y - (ilog2 y - 52))%Z at 1 by lia.
        rewrite pow2_minus. assumption. }
      apply round_half_even_le in Hs. rewrite round_half_even_Z in Hs.
      rewrite Zle_Qle in Hs. rewrite <- pow2_Z in Hs by lia.
      rewrite <- (pow2_minus (ilog2 y) (quantum y)).
      rewrite Hy at 1. replace (ilog2 y - (ilog2 y - 52))%Z with 52%Z by lia.
      apply Qmult_le_compat_r; [assumption |].
      pose proof (pow2_pos (quantum y)); lra.
Qed.

Lemma round_value_nonneg (x : Q) : 0 <= x -> 0 <= round_value x.
Proof.
  intros Hx. unfold round_value.
  pose proof (pow2_pos (quantum x)) as Hq.
  assert (Hs : inject_Z 0 <= x / pow2 (quantum x)).
  { apply Qle_shift_div_l; [assumption |]. change (inject_Z 0) with 0. lra. }
  apply round_half_even_le in Hs. rewrite round_half_even_Z in Hs.
  rewrite Zle_Qle in Hs. change (inject_Z 0) with 0 in Hs.
  apply Qmult_le_0_compat; lra.
Qed.

Lemma round_value_pow2 (k : Z) : (-1074 <= k)%Z -> round_value (pow2 k) == pow2 k.
Proof.
  intros Hk. unfold round_value, quantum. rewrite ilog2_pow2.
  set (q := Z.max (k - 52) (-1074)).
  assert (Hq : (0 <= k - q)%Z) by lia.
  rewrite (round_half_even_comp _ (inject_Z (2 ^ (k - q)))).
  - rewrite round_half_even_Z, <- pow2_Z by assumption. apply pow2_minus.
  - rewrite <- pow2_Z by assumption.
    rewrite <- (pow2_minus k q) at 1. field.
    pose proof (pow2_pos q). lra.
Qed.

(** ** The order of numbers *)

Lemma leb_Fin (x y : Q) : x <= y -> leb (Fin x) (Fin y) = true.
Proof. intros H. apply Qle_bool_iff. assumption. Qed.

Lemma leb_Fin_inv (x y : Q) : leb (Fin x) (Fin y) = true -> x <= y.
Proof. intros H. apply Qle_bool_iff. assumption. Qed.

Lemma leb_neg (a b : number) : leb a b = true -> leb (neg b) (neg a) = true.
Proof.
  destruct a, b; cbn; try congruence.
  intros H. apply Qle_bool_iff in H. apply Qle_bool_iff. lra.
Qed.

Lemma leb_trans (a b c : number) :
  leb a b = true -> leb b c = true -> leb a c = true.
Proof.
  destruct a, b, c; cbn; try congruence.
  intros H1 H2. apply Qle_bool_iff in H1, H2. apply Qle_bool_iff. lra.
Qed.

(** ** [round64] *)

Lemma round_positive_le (x y : Q) :
  0 < x -> x <= y -> leb (round_positive x) (round_positive y) = true.
Proof.
  intros Hx Hxy. pose proof (round_value_le x y Hx Hxy) as H.
  unfold round_positive.
  destruct (Qle_bool (pow2 1024) (round_value x)) eqn:Ex;
    destruct (Qle_bool (pow2 1024) (round_value y)) eqn:Ey; try reflexivity.
  - apply Qle_bool_iff in Ex.
    assert (Hc : pow2 1024 <= round_value y) by lra.
    apply Qle_bool_iff in Hc. congruence.
  - apply leb_Fin. rewrite !Qred_correct. assumption.
Qed.

Lemma round_positive_nonneg (x : Q) :
  0 < x -> leb (Fin 0) (round_positive x) = true.
Proof.
  intros Hx. unfold round_positive.
  destruct (Qle_bool (pow2 1024) (round_value x)); [reflexivity |].
  apply leb_Fin. rewrite Qred_correct. apply round_value_nonneg. lra.
Qed.

Lemma round_positive_comp (x y : Q) :
  0 < x -> x == y -> round_positive x = round_positive y.
Proof.
  intros Hx H. pose proof (round_value_comp x y Hx H) as Hv.
  unfold round_positive.
  rewrite (Qred_complete _ _ Hv).
  destruct (Qle_bool (pow2 1024) (round_value x)) eqn:Ex;
    destruct (Qle_bool (pow2 1024) (round_value y)) eqn:Ey; try reflexivity;
    exfalso.
  - apply Qle_bool_iff in Ex. rewrite Hv in Ex. apply Qle_bool_iff in Ex.
    congruence.
  - apply Qle_bool_iff in Ey. rewrite <- Hv in Ey. apply Qle_bool_iff in Ey.
    congruence.
Qed.

(** Rounding depends on the value of the rational only. *)
Lemma round64_ext (x y : Q) : x == y -> round64 x = round64 y.
Proof.
  intros H. unfold round64. rewrite (Qred_complete _ _ H). reflexivity.
Qed.

Lemma round64_0 : round64 0 = Fin 0.
Proof. reflexivity. Qed.

Lemma round64_pos (x : Q) : 0 < x -> round64 x = round_positive x.
Proof.
  intros Hx. unfold round64.
  destruct (Qcompare_spec (Qred x) 0) as [E | E | E];
    rewrite Qred_correct in E; try (exfalso; lra).
  apply round_positive_comp; [rewrite Qred_correct; assumption |].
  apply Qred_correct.
Qed.

Lemma round64_neg (x : Q) : x < 0 -> round64 x = neg (round_positive (- x)).
Proof.
  intros Hx. unfold round64.
  destruct (Qcompare_spec (Qred x) 0) as [E | E | E];
    rewrite Qred_correct in E; try (exfalso; lra).
  f_equal. apply round_positive_comp; [rewrite Qred_correct; lra |].
  rewrite Qred_correct. reflexivity.
Qed.

(** Rounding commutes with the change of sign. *)
Lemma round64_opp (x : Q) : round64 (- x) = neg (round64 x).
Proof.
  destruct (Q_dec x 0) as [[H | H] | H].
  - rewrite (round64_neg x H), round64_pos by lra.
    destruct (round_positive (- x)); cbn; try reflexivity.
    f_equal. destruct q as [n d]. unfold Qopp. cbn. rewrite Z.opp_involutive.
    reflexivity.
  - rewrite (round64_pos x H), round64_neg by lra.
    rewrite (round_positive_comp (- - x) x); [reflexivity | lra | ring].
  - rewrite (round64_ext (- x) 0), (round64_ext x 0) by lra. reflexivity.
Qed.

(** Rounding never yields NaN. *)
Lemma round64_not_nan (x : Q) : is_nan (round64 x) = false.
Proof.
  unfold round64, round_positive.
  destruct (Qred x ?= 0); try reflexivity.
  - destruct (Qle_bool _ _); reflexivity.
  - destruct (Qle_bool _ _); reflexivity.
Qed.

(** Rounding is monotone. *)
Lemma round64_le (x y : Q) : x <= y -> leb (round64 x) (round64 y) = true.
Proof.
  intros Hxy.
  destruct (Q_dec x 0) as [[Hx | Hx] | Hx];
    destruct (Q_dec y 0) as [[Hy | Hy] | Hy]; try (exfalso; lra).
  - rewrite (round64_neg x Hx), (round64_neg y Hy).
    apply leb_neg. apply round_positive_le; lra.
  - rewrite (round64_neg x Hx), (round64_pos y Hy).
    apply leb_trans with (Fin 0).
    + apply (leb_neg (Fin 0)). apply round_positive_nonneg. lra.
    + apply round_positive_nonneg. assumption.
  - rewrite (round64_neg x Hx), (round64_ext y 0 Hy).
    apply (leb_neg (Fin 0)). apply round_positive_nonneg. lra.
  - rewrite (round64_pos x Hx), (round64_pos y Hy).
    apply round_positive_le; assumption.
  - rewrite (round64_ext x 0 Hx), (round64_pos y Hy).
    apply round_positive_nonneg. assumption.
  - rewrite (round64_ext x 0 Hx), (round64_ext y 0 Hy). reflexivity.
Qed.

(** A power of two from 2^-1074 to 2^1023 is a double. *)
Lemma round64_pow2 (k : Z) :
  (-1074 <= k <= 1023)%Z -> round64 (pow2 k) = Fin (Qred (pow2 k)).
Proof.
  intros Hk. rewrite round64_pos by apply pow2_pos.
  pose proof (round_value_pow2 k (proj1 Hk)) as Hv.
  unfold round_positive.
  destruct (Qle_bool (pow2 1024) (round_value (pow2 k))) eqn:E.
  - apply Qle_bool_iff in E. rewrite Hv in E.
    assert (pow2 k < pow2 1024) by (apply pow2_lt; lia). exfalso; lra.
  - rewrite (Qred_complete _ _ Hv). reflexivity.
Qed.

End RoundingFacts.

(* ===================================================================== *)
(** * Numbers                                                              *)
(* ===================================================================== *)

Module NumberFacts.
Import JS RoundingFacts.
Local Open Scope Q_scope.

(** ** Comparisons *)

Lemma geb_Fin (x y : Q) : geb (Fin x) (Fin y) = true <-> y <= x.
Proof. simpl. apply Qle_bool_iff. Qed.

Lemma gtb_Fin (x y : Q) : gtb (Fin x) (Fin y) = true <-> y < x.
Proof.
  simpl. rewrite negb_true_iff. split; intro Hxy.
  - apply Qnot_le_lt. intro Hle. apply Qle_bool_iff in Hle. congruence.
  - destruct (Qle_bool x y) eqn:E; [|reflexivity].
    apply Qle_bool_iff in E. exfalso. apply (Qlt_not_le _ _ Hxy E).
Qed.

Lemma ltb_Fin (x y : Q) : ltb (Fin x) (Fin y) = true <-> x < y.
Proof. unfold ltb. apply gtb_Fin. Qed.

Lemma leb_refl (a : number) : is_nan a = false -> leb a a = true.
Proof.
  destruct a; cbn; try congruence. intros _. apply Qle_bool_iff. lra.
Qed.

Lemma leb_not_nan (a b : number) :
  leb a b = true -> is_nan a = false /\ is_nan b = false.
Proof. destruct a, b; cbn; try congruence; auto. Qed.

Lemma leb_PosInf (a : number) : is_nan a = false -> leb a PosInf = true.
Proof. destruct a; cbn; congruence. Qed.

Lemma leb_NegInf (a : number) : is_nan a = false -> leb NegInf a = true.
Proof. destruct a; cbn; congruence. Qed.

Lemma is_finite_Fin (v : number) :
  is_finite v = true <-> exists q, v = Fin q.
Proof.
  split.
  - destruct v; try discriminate. eauto.
  - intros [q ->]. reflexivity.
Qed.

Lemma Qeq_bool_false (x : Q) : ~ x == 0 -> Qeq_bool x 0 = false.
Proof.
  intro Hx. destruct (Qeq_bool x 0) eqn:E; [|reflexivity].
  apply Qeq_bool_eq in E. contradiction.
Qed.

Lemma Qle_bool_false (x y : Q) : Qle_bool x y = false -> y < x.
Proof.
  intros E. apply Qnot_le_lt. intro H. apply Qle_bool_iff in H. congruence.
Qed.

(** ** [Math.max] and [||] *)

(** [Math.max(lo, v)] is at least [lo] as soon as [v] is not NaN. *)
Lemma Math_max_floor (lo v : number) :
  is_nan lo = false -> is_nan v = false -> geb (Math_max lo v) lo = true.
Proof.
  intros Hlo Hv. pose proof (leb_refl lo Hlo) as Hr. unfold leb in Hr.
  destruct lo as [| | |l], v as [| | |q]; cbn in *; try congruence.
  destruct (Qle_bool q l) eqn:E; cbn.
  - assumption.
  - apply Qle_bool_false in E. apply Qle_bool_iff. lra.
Qed.

(** [Math.max(lo, v)] is NaN, or at least [lo]. *)
Lemma Math_max_floored (lo v : number) :
  is_nan lo = false -> floored_unless_nan lo (Math_max lo v) = true.
Proof.
  intros Hlo. unfold floored_unless_nan.
  destruct (is_nan v) eqn:Hv.
  - destruct v; try discriminate. destruct lo; reflexivity.
  - rewrite (Math_max_floor lo v Hlo Hv). apply orb_true_r.
Qed.

(** [v || d] is never NaN when the default is not. *)
Lemma or_default_not_nan (v : option number) (d : number) :
  is_nan d = false -> is_nan (or_default v d) = false.
Proof.
  intro Hd. destruct v as [[| | |q]|]; simpl; auto.
  destruct (Qeq_bool q 0); simpl; auto.
Qed.

(** [v || d] is never 0 when the default is not. *)
Lemma or_default_truthy (v : option number) (d : number) :
  truthy d = true -> truthy (or_default v d) = true.
Proof.
  intro Hd. destruct v as [n|]; simpl; auto.
  destruct (truthy n) eqn:E; auto.
Qed.

Lemma or_default_within (b : Q) (v : option number) (d : number) :
  match v with Some n => within b n = true | None => True end ->
  within b d = true -> within b (or_default v d) = true.
Proof.
  destruct v as [n|]; simpl; auto.
  destruct (truthy n); auto.
Qed.

(** ** Finite numbers of bounded magnitude *)

Lemma within_Fin (b : Q) (v : number) :
  within b v = true <-> exists q, v = Fin q /\ - b <= q /\ q <= b.
Proof.
  split.
  - destruct v as [| | |q]; cbn; try discriminate.
    intros H. apply andb_true_iff in H. destruct H as [H1 H2].
    apply Qle_bool_iff in H1, H2. eauto.
  - intros [q [-> [H1 H2]]]. cbn. apply andb_true_iff.
    split; apply Qle_bool_iff; assumption.
Qed.

Lemma within_finite (b : Q) (v : number) :
  within b v = true -> is_nan v = false.
Proof. destruct v; cbn; congruence. Qed.

Lemma within_weaken (a b : Q) (v : number) :
  within a v = true -> a <= b -> within b v = true.
Proof.
  intros H Hab. apply within_Fin in H. destruct H as [q [-> [H1 H2]]].
  apply within_Fin. exists q. split; [reflexivity | lra].
Qed.

(** What rounds a rational of magnitude at most [b] is of magnitude at most
    the rounded [b]. *)
Lemma within_round64 (b c q : Q) :
  - b <= q -> q <= b -> leb (round64 b) (Fin c) = true ->
  within c (round64 q) = true.
Proof.
  intros H1 H2 Hb.
  pose proof (round64_le q b H2) as Hu.
  pose proof (round64_le (- b) q H1) as Hl.
  rewrite round64_opp in Hl.
  pose proof (leb_trans _ _ _ Hu Hb) as Hu'.
  pose proof (leb_trans _ _ _ (leb_neg _ _ Hb) Hl) as Hl'.
  destruct (round64 q) as [| | |v]; cbn in Hu', Hl'; try discriminate.
  cbn. apply andb_true_iff. split; assumption.
Qed.

Lemma within_neg (b : Q) (v : number) :
  within b v = true -> within b (neg v) = true.
Proof.
  intros H. apply within_Fin in H. destruct H as [q [-> [H1 H2]]].
  apply within_Fin. exists (- q). split; [reflexivity | lra].
Qed.

Lemma within_add (a b c : Q) (x y : number) :
  within a x = true -> within b y = true ->
  leb (round64 (a + b)) (Fin c) = true ->
  within c (x + y)%js = true.
Proof.
  intros Hx Hy Hc. apply within_Fin in Hx, Hy.
  destruct Hx as [qx [-> [Hx1 Hx2]]], Hy as [qy [-> [Hy1 Hy2]]].
  cbn [add]. apply (within_round64 (a + b)); [lra | lra | assumption].
Qed.

Lemma within_sub (a b c : Q) (x y : number) :
  within a x = true -> within b y = true ->
  leb (round64 (a + b)) (Fin c) = true ->
  within c (x - y)%js = true.
Proof.
  intros Hx Hy Hc. unfold sub.
  apply (within_add a b); [assumption | apply within_neg; assumption
                          | assumption].
Qed.

Lemma product_bound (a b x y : Q) :
  - a <= x -> x <= a -> - b <= y -> y <= b ->
  - (a * b) <= x * y /\ x * y <= a * b.
Proof.
  intros. assert (0 <= a) by lra. assert (0 <= b) by lra.
  assert (0 <= (a - x) * (b - y)) by (apply Qmult_le_0_compat; lra).
  assert (0 <= (a + x) * (b + y)) by (apply Qmult_le_0_compat; lra).
  assert (0 <= (a - x) * (b + y)) by (apply Qmult_le_0_compat; lra).
  assert (0 <= (a + x) * (b - y)) by (apply Qmult_le_0_compat; lra).
  split; lra.
Qed.

Lemma within_mul (a b c : Q) (x y : number) :
  within a x = true -> within b y = true ->
  leb (round64 (a * b)) (Fin c) = true ->
  within c (x * y)%js = true.
Proof.
  intros Hx Hy Hc. apply within_Fin in Hx, Hy.
  destruct Hx as [qx [-> [Hx1 Hx2]]], Hy as [qy [-> [Hy1 Hy2]]].
  cbn [mul]. destruct (product_bound a b qx qy); try assumption.
  apply (within_round64 (a * b)); assumption.
Qed.

(** Division by a constant that is 1 or more. *)
Lemma within_div (a c : Q) (x : number) :
  within a x = true -> 1 <= c -> leb (round64 a) (Fin a) = true ->
  within a (x / Fin c)%js = true.
Proof.
  intros Hx Hc Ha. apply within_Fin in Hx.
  destruct Hx as [qx [-> [Hx1 Hx2]]].
  cbn [div]. rewrite Qeq_bool_false by lra.
  assert (0 < / c) by (apply Qinv_lt_0_compat; lra).
  assert (/ c <= 1).
  { apply Qle_shift_inv_r; lra. }
  destruct (product_bound a 1 qx (/ c)); try lra.
  apply (within_round64 a); [| | assumption]; unfold Qdiv; lra.
Qed.

(** What rounds a rational between two doubles lies between them. *)
Lemma round64_between (lo hi l h q : Q) :
  lo <= q -> q <= hi -> round64 lo = Fin l -> round64 hi = Fin h ->
  exists v, round64 q = Fin v /\ l <= v /\ v <= h.
Proof.
  intros H1 H2 Hl Hh.
  pose proof (round64_le lo q H1) as Hlo.
  pose proof (round64_le q hi H2) as Hhi.
  rewrite Hl in Hlo. rewrite Hh in Hhi.
  destruct (round64 q) as [| | |v]; cbn in Hlo, Hhi; try discriminate.
  apply Qle_bool_iff in Hlo, Hhi. eauto.
Qed.

(** ** Magnitudes that are powers of two *)

Lemma round64_pow2_leb (k : Z) (b : Q) :
  (-1074 <= k <= 1023)%Z -> b == pow2 k ->
  leb (round64 b) (Fin (pow2 k)) = true.
Proof.
  intros Hk Hb. rewrite (round64_ext _ _ Hb), round64_pow2 by assumption.
  apply leb_Fin. rewrite Qred_correct. lra.
Qed.

Lemma within_pow2_weaken (i j : Z) (v : number) :
  within (pow2 i) v = true -> (i <= j)%Z -> within (pow2 j) v = true.
Proof.
  intros H Hij. apply (within_weaken (pow2 i)); [assumption |].
  apply pow2_le. assumption.
Qed.

Lemma within_mul_pow2 (i j : Z) (x y : number) :
  within (pow2 i) x = true -> within (pow2 j) y = true ->
  (-1074 <= i + j <= 1023)%Z ->
  within (pow2 (i + j)) (x * y)%js = true.
Proof.
  intros Hx Hy Hk. apply (within_mul (pow2 i) (pow2 j)); try assumption.
  apply round64_pow2_leb; [assumption |]. symmetry. apply pow2_plus.
Qed.

Lemma within_add_pow2 (i j : Z) (x y : number) :
  within (pow2 i) x = true -> within (pow2 j) y = true ->
  (-1074 <= Z.max i j + 1 <= 1023)%Z ->
  within (pow2 (Z.max i j + 1)) (x + y)%js = true.
Proof.
  intros Hx Hy Hk.
  apply (within_add (pow2 (Z.max i j)) (pow2 (Z.max i j))).
  - apply (within_pow2_weaken i); [assumption | lia].
  - apply (within_pow2_weaken j); [assumption | lia].
  - apply round64_pow2_leb; [assumption |]. rewrite pow2_succ. ring.
Qed.

Lemma within_sub_pow2 (i j : Z) (x y : number) :
  within (pow2 i) x = true -> within (pow2 j) y = true ->
  (-1074 <= Z.max i j + 1 <= 1023)%Z ->
  within (pow2 (Z.max i j + 1)) (x - y)%js = true.
Proof.
  intros Hx Hy Hk. unfold sub.
  apply within_add_pow2; [assumption | apply within_neg; assumption
                         | assumption].
Qed.

Lemma within_div_pow2 (i : Z) (c : Q) (x : number) :
  within (pow2 i) x = true -> 1 <= c -> (-1074 <= i <= 1023)%Z ->
  within (pow2 i) (x / Fin c)%js = true.
Proof.
  intros Hx Hc Hi. apply within_div; try assumption.
  apply round64_pow2_leb; [assumption | reflexivity].
Qed.

Lemma within_at_index (b : Q) (xs : list number) (k : nat) :
  Forall (fun v => within b v = true) xs -> (k < List.length xs)%nat ->
  within b (at_index xs k) = true.
Proof.
  intros Hxs Hk. unfold at_index.
  rewrite Forall_forall in Hxs. apply Hxs. apply nth_In. exact Hk.
Qed.

(** A way to name the magnitude of a constant. *)
Lemma within_constant (k : Z) (v : number) :
  within (pow2 k) v = true -> within (pow2 k) v = true.
Proof. auto. Qed.

(** ** Monotone operations *)

Ltac rounded :=
  repeat match goal with
  | |- context [round64 ?q] =>
      let E := fresh "E" in
      pose proof (round64_not_nan q) as E;
      destruct (round64 q); cbn in E |- *; try discriminate; try reflexivity
  end.

Lemma add_le (a : Q) (x y : number) :
  leb x y = true -> leb (Fin a + x)%js (Fin a + y)%js = true.
Proof.
  destruct x as [| | |qx], y as [| | |qy]; cbn; try congruence; intros H.
  all: try (apply (round64_le (a + qx) (a + qy)); apply Qle_bool_iff in H;
            lra).
  all: rounded.
Qed.

Lemma mul_le (c x y : Q) :
  0 <= c -> x <= y -> leb (Fin x * Fin c)%js (Fin y * Fin c)%js = true.
Proof.
  intros Hc H. cbn [mul]. apply round64_le.
  apply Qmult_le_compat_r; assumption.
Qed.

(** [lo + r * width] for a draw [r] in [0, 1] lies between its values at 0
    and at 1. *)
Lemma affine_le (a c r : Q) :
  0 <= c -> 0 <= r -> r <= 1 ->
  leb (Fin a + Fin 0 * Fin c)%js (Fin a + Fin r * Fin c)%js = true
  /\ leb (Fin a + Fin r * Fin c)%js (Fin a + Fin 1 * Fin c)%js = true.
Proof.
  intros Hc H0 H1. split; apply add_le, mul_le; assumption.
Qed.

(** ** The order that lets NaN through *)

Lemma le_unless_nan_leb (a b : number) :
  leb a b = true -> le_unless_nan a b = true.
Proof. intros H. unfold le_unless_nan. rewrite H. apply orb_true_r. Qed.

Lemma le_unless_nan_ltb (a b : number) :
  le_unless_nan a b = true -> ltb b a = false.
Proof.
  destruct a as [| | |x], b as [| | |y]; cbn; try congruence.
  rewrite negb_false_iff. auto.
Qed.

Lemma le_unless_nan_add_r (c x y : number) :
  le_unless_nan x y = true -> le_unless_nan (c + x)%js (c + y)%js = true.
Proof.
  destruct c as [| | |qc], x as [| | |qx], y as [| | |qy]; cbn;
    try congruence; intros H.
  all: try (pose proof (round64_le (qc + qx) (qc + qy)) as Hr;
            apply le_unless_nan_leb, Hr; apply Qle_bool_iff in H; lra).
  all: rounded.
Qed.

Lemma le_unless_nan_add_l (c x y : number) :
  le_unless_nan x y = true -> le_unless_nan (x + c)%js (y + c)%js = true.
Proof.
  destruct c as [| | |qc], x as [| | |qx], y as [| | |qy]; cbn;
    try congruence; intros H.
  all: try (pose proof (round64_le (qx + qc) (qy + qc)) as Hr;
            apply le_unless_nan_leb, Hr; apply Qle_bool_iff in H; lra).
  all: rounded.
Qed.

Lemma le_unless_nan_neg (x y : number) :
  le_unless_nan x y = true -> le_unless_nan (neg y) (neg x) = true.
Proof.
  destruct x as [| | |qx], y as [| | |qy]; cbn; try congruence.
  intros H. apply Qle_bool_iff in H. apply Qle_bool_iff. lra.
Qed.

Lemma le_unless_nan_sub_r (c x y : number) :
  le_unless_nan x y = true -> le_unless_nan (c - y)%js (c - x)%js = true.
Proof.
  intros H. unfold sub. apply le_unless_nan_add_r, le_unless_nan_neg, H.
Qed.

(** Multiplying by a constant below zero turns the order round. *)
Lemma le_unless_nan_mul_neg (c : Q) (x y : number) :
  c < 0 -> le_unless_nan x y = true ->
  le_unless_nan (Fin c * y)%js (Fin c * x)%js = true.
Proof.
  intros Hc.
  assert (Ec : (c ?= 0) = Lt) by (apply Qlt_alt; assumption).
  destruct x as [| | |qx], y as [| | |qy]; cbn; unfold scale_inf;
    rewrite ?Ec; cbn; try congruence; intros H.
  all: try (pose proof (round64_le (c * qy) (c * qx)) as Hr;
            apply le_unless_nan_leb, Hr; apply Qle_bool_iff in H;
            setoid_replace (c * qy) with (- (- c * qy)) by ring;
            setoid_replace (c * qx) with (- (- c * qx)) by ring;
            apply Qopp_le_compat; apply Qmult_le_l; lra).
  all: rounded.
Qed.

Lemma le_unless_nan_max (lo : Q) (x y : number) :
  le_unless_nan x y = true ->
  le_unless_nan (Math_max (Fin lo) x) (Math_max (Fin lo) y) = true.
Proof.
  destruct x as [| | |qx], y as [| | |qy]; cbn; try congruence; intros H.
  all: repeat match goal with
       | |- context [Qle_bool ?a ?b] => destruct (Qle_bool a b) eqn:?; cbn
       end.
  all: repeat match goal with
       | H : Qle_bool _ _ = true |- _ => apply Qle_bool_iff in H
       | H : Qle_bool _ _ = false |- _ => apply Qle_bool_false in H
       end.
  all: try reflexivity; try (apply Qle_bool_iff; lra); exfalso; lra.
Qed.

(** ** Whole numbers *)

(** A whole number below 2^53 in magnitude is a double. *)
Lemma round_value_Z (n : Z) :
  (0 < n < 2 ^ 53)%Z -> round_value (inject_Z n) == inject_Z n.
Proof.
  intros Hn. unfold round_value.
  assert (Hpos : 0 < inject_Z n).
  { change 0 with (inject_Z 0). rewrite <- Zlt_Qlt. lia. }
  assert (Hq : (quantum (inject_Z n) <= 0)%Z).
  { destruct (ilog2_spec _ Hpos) as [H1 _].
    assert (H2 : inject_Z n < pow2 53).
    { rewrite pow2_Z by lia. rewrite <- Zlt_Qlt. lia. }
    assert (H3 : pow2 (ilog2 (inject_Z n)) < pow2 53) by lra.
    apply pow2_lt_inv in H3. unfold quantum. lia. }
  set (q := quantum (inject_Z n)) in *.
  assert (Hs : inject_Z n / pow2 q == inject_Z (n * 2 ^ (- q))).
  { rewrite inject_Z_mult, <- (pow2_Z (- q)) by lia.
    unfold pow2. rewrite Qpower_opp. reflexivity. }
  rewrite (round_half_even_comp _ _ Hs), round_half_even_Z.
  rewrite inject_Z_mult, <- (pow2_Z (- q)) by lia.
  rewrite <- Qmult_assoc, (Qmult_comm (pow2 (- q))), <- pow2_plus.
  replace (q + - q)%Z with 0%Z by lia. change (pow2 0) with 1. ring.
Qed.

Lemma Qred_inject_Z (n : Z) : Qred (inject_Z n) = inject_Z n.
Proof.
  unfold Qred, inject_Z.
  pose proof (Z.ggcd_correct_divisors n 1) as Hd.
  pose proof (Z.ggcd_gcd n 1) as Hg.
  destruct (Z.ggcd n 1) as [g [aa bb]]. cbn [fst snd] in *.
  rewrite Z.gcd_1_r in Hg. subst g. destruct Hd as [Ha Hb].
  replace aa with n by lia. replace bb with 1%Z by lia. reflexivity.
Qed.

Lemma round64_Z (n : Z) :
  (- 2 ^ 53 < n < 2 ^ 53)%Z -> round64 (inject_Z n) = Fin (inject_Z n).
Proof.
  assert (Hp : forall m, (0 < m < 2 ^ 53)%Z ->
                         round64 (inject_Z m) = Fin (inject_Z m)).
  { intros m Hm.
    assert (Hpos : 0 < inject_Z m).
    { change 0 with (inject_Z 0). rewrite <- Zlt_Qlt. lia. }
    rewrite (round64_pos _ Hpos). unfold round_positive.
    pose proof (round_value_Z m Hm) as Hv.
    destruct (Qle_bool (pow2 1024) (round_value (inject_Z m))) eqn:E.
    - apply Qle_bool_iff in E. rewrite Hv in E.
      assert (inject_Z m < pow2 53).
      { rewrite pow2_Z by lia. rewrite <- Zlt_Qlt. lia. }
      assert (pow2 53 < pow2 1024) by (apply pow2_lt; lia).
      exfalso; lra.
    - rewrite (Qred_complete _ _ Hv), Qred_inject_Z. reflexivity. }
  intros Hn. destruct (Z.compare_spec n 0) as [E | E | E].
  - subst n. reflexivity.
  - replace (inject_Z n) with (- inject_Z (- n)).
    + rewrite round64_opp, Hp by lia. reflexivity.
    + unfold inject_Z, Qopp. cbn. rewrite Z.opp_involutive. reflexivity.
  - apply Hp. lia.
Qed.

End NumberFacts.

(* ===================================================================== *)
(** * Runs                                                                 *)
(* ===================================================================== *)

Module RunFacts.
Import JS AiModels RoundingFacts NumberFacts.
Local Open Scope Q_scope.

Lemma bind_run {A B : Type} (c : M A) (k : A -> M B) (w : World) :
  bind c k w = k (fst (c w)) (snd (c w)).
Proof. unfold bind. destruct (c w). reflexivity. Qed.

Lemma advance_0 (w : World) : advance 0 0 w = w.
Proof.
  destruct w. unfold advance. simpl. rewrite !Nat.add_0_r. reflexivity.
Qed.

Lemma advance_advance (n m n' m' : nat) (w : World) :
  advance n' m' (advance n m w) = advance (n + n') (m + m') w.
Proof. unfold advance. simpl. rewrite !Nat.add_assoc. reflexivity. Qed.

Lemma unit_random_advance (n m : nat) (w : World) :
  unit_random w -> unit_random (advance n m w).
Proof. intros Hw k. apply Hw. Qed.

Lemma monotonic_clock_advance (n m : nat) (w : World) :
  monotonic_clock w -> monotonic_clock (advance n m w).
Proof. intros Hw k. apply Hw. Qed.

(** *** Rules for [holds] *)

Lemma holds_ret {A : Type} (I : World -> Prop) (a : A) (P : A -> Prop) :
  P a -> holds I (ret a) P.
Proof. intros Ha w Hw. split; assumption. Qed.

Lemma holds_bind {A B : Type} (I : World -> Prop) (c : M A) (k : A -> M B)
  (P : A -> Prop) (Q : B -> Prop) :
  holds I c P -> (forall a, P a -> holds I (k a) Q) -> holds I (bind c k) Q.
Proof.
  intros Hc Hk w Hw. rewrite bind_run.
  destruct (Hc w Hw) as [Ha Hw']. apply (Hk _ Ha _ Hw').
Qed.

Lemma holds_weaken {A : Type} (I : World -> Prop) (c : M A)
  (P Q : A -> Prop) :
  holds I c P -> (forall a, P a -> Q a) -> holds I c Q.
Proof. intros Hc HPQ w Hw. destruct (Hc w Hw). auto. Qed.

Lemma holds_random_unit :
  holds unit_random Math_random
    (fun v => exists q, v = Fin q /\ 0 <= q /\ q < 1).
Proof.
  intros w Hw. split.
  - simpl. destruct (Hw (random_calls w)) as [H0 H1]. eauto.
  - intro k. apply Hw.
Qed.

Lemma holds_trivial {A : Type} (c : M A) :
  holds (fun _ => True) c (fun _ => True).
Proof. intros w _. split; exact I. Qed.

Lemma holds_random_finite :
  holds (fun _ => True) Math_random (fun v => is_finite v = true).
Proof. intros w _. split; [reflexivity | exact I]. Qed.

Lemma holds_Array_from {A : Type} (I : World -> Prop) (n : nat) (f : M A)
  (P : A -> Prop) :
  holds I f P ->
  holds I (Array_from n f) (fun xs => List.length xs = n /\ Forall P xs).
Proof.
  intro Hf. induction n as [|n IH]; simpl.
  - apply holds_ret. split; [reflexivity | constructor].
  - eapply holds_bind; [exact Hf|]. intros x Hx.
    eapply holds_bind; [exact IH|]. intros xs [Hlen Hxs].
    apply holds_ret. split; [simpl; congruence | constructor; assumption].
Qed.

Lemma holds_mapM {A B : Type} (I : World -> Prop) (f : A -> M B)
  (Q : A -> Prop) (P : A -> B -> Prop) (xs : list A) :
  (forall x, Q x -> holds I (f x) (P x)) ->
  Forall Q xs ->
  holds I (mapM f xs) (fun ys => Forall2 P xs ys).
Proof.
  intros Hf Hxs. induction Hxs as [|x xs Hx Hxs IH]; simpl.
  - apply holds_ret. constructor.
  - eapply holds_bind; [exact (Hf _ Hx)|]. intros y Hy.
    eapply holds_bind; [exact IH|]. intros ys Hys.
    apply holds_ret. constructor; assumption.
Qed.

(** *** Rules for [draws] *)

Lemma draws_ret {A : Type} (a : A) : draws (ret a) 0 0.
Proof. intro w. simpl. symmetry. apply advance_0. Qed.

Lemma draws_random : draws Math_random 1 0.
Proof.
  intro w. unfold advance. simpl.
  rewrite Nat.add_1_r, Nat.add_0_r. reflexivity.
Qed.

Lemma draws_now : draws Date_now 0 1.
Proof.
  intro w. unfold advance. simpl.
  rewrite Nat.add_1_r, Nat.add_0_r. reflexivity.
Qed.

Lemma draws_bind {A B : Type} (c : M A) (k : A -> M B) (n m n' m' : nat) :
  draws c n m -> (forall a, draws (k a) n' m') ->
  draws (bind c k) (n + n') (m + m').
Proof.
  intros Hc Hk w. rewrite bind_run, Hk, Hc. apply advance_advance.
Qed.

(** The same with the count of [k] known only for the value [c] returns. *)
Lemma snd_bind {A B : Type} (c : M A) (k : A -> M B) (n m n' m' : nat)
  (w : World) :
  snd (c w) = advance n m w ->
  snd (k (fst (c w)) (advance n m w)) = advance n' m' (advance n m w) ->
  snd (bind c k w) = advance (n + n') (m + m') w.
Proof.
  intros Hc Hk. rewrite bind_run, Hc, Hk. apply advance_advance.
Qed.

Lemma draws_Array_from {A : Type} (n k : nat) (f : M A) :
  draws f k 0 -> draws (Array_from n f) (n * k) 0.
Proof.
  intro Hf. induction n as [|n IH]; simpl.
  - apply draws_ret.
  - replace (k + n * k)%nat with (k + (n * k + 0))%nat by lia.
    change 0%nat with (0 + (0 + 0))%nat at 2.
    apply draws_bind; [exact Hf|]. intro x.
    apply draws_bind; [exact IH|]. intro xs. apply draws_ret.
Qed.

Lemma draws_mapM {A B : Type} (k : nat) (f : A -> M B) (P : A -> Prop)
  (xs : list A) :
  (forall x, P x -> draws (f x) k 0) -> Forall P xs ->
  draws (mapM f xs) (List.length xs * k) 0.
Proof.
  intros Hf Hxs. induction Hxs as [|x xs Hx Hxs IH]; simpl.
  - apply draws_ret.
  - replace (k + List.length xs * k)%nat
      with (k + (List.length xs * k + 0))%nat by lia.
    change 0%nat with (0 + (0 + 0))%nat at 2.
    apply draws_bind; [exact (Hf _ Hx)|]. intro y.
    apply draws_bind; [exact IH|]. intro ys. apply draws_ret.
Qed.

Lemma draws_eq {A : Type} (c : M A) (n m n' m' : nat) :
  draws c n m -> n = n' -> m = m' -> draws c n' m'.
Proof. intros Hc <- <-. exact Hc. Qed.

Ltac draws_step :=
  first [ apply draws_ret | apply draws_random | apply draws_now
        | eapply draws_bind; [ | intro ] ].

Lemma Math_random_run (w : World) :
  Math_random w = (Fin (random_source w (random_calls w)), advance 1 0 w).
Proof. rewrite <- draws_random. reflexivity. Qed.

Lemma Date_now_run (w : World) :
  Date_now w
  = (Fin (inject_Z (clock_source w (clock_calls w))), advance 0 1 w).
Proof. rewrite <- draws_now. reflexivity. Qed.

Lemma draws_random_array (n : nat) (g : number -> number) :
  draws (Array_from n (r <- Math_random ;; ret (g r))) n 0.
Proof.
  eapply draws_eq; [apply (draws_Array_from n 1) | lia | reflexivity].
  eapply draws_eq; [repeat draws_step | reflexivity | reflexivity].
Qed.

End RunFacts.

(* ===================================================================== *)
(** * Sorting and the genetic algorithm                                   *)
(* ===================================================================== *)

Module SortFacts.
Import JS AiModels NumberFacts.

Lemma sort_insert_Permutation {A : Type} (cmp : A -> A -> number) (x : A)
  (l : list A) :
  Permutation (sort_insert cmp x l) (x :: l).
Proof.
  induction l as [|y l IH]; simpl.
  - apply Permutation_refl.
  - destruct (gtb (cmp x y) (Fin 0)).
    + eapply Permutation_trans; [apply perm_skip; exact IH | apply perm_swap].
    + apply Permutation_refl.
Qed.

Lemma Array_sort_Permutation {A : Type} (cmp : A -> A -> number)
  (xs : list A) :
  Permutation (Array_sort cmp xs) xs.
Proof.
  unfold Array_sort. induction xs as [|x xs IH]; simpl.
  - apply Permutation_refl.
  - eapply Permutation_trans; [apply sort_insert_Permutation|].
    apply perm_skip. exact IH.
Qed.

Lemma Array_sort_length {A : Type} (cmp : A -> A -> number) (xs : list A) :
  List.length (Array_sort cmp xs) = List.length xs.
Proof. apply Permutation_length, Array_sort_Permutation. Qed.

Lemma Array_sort_Forall {A : Type} (cmp : A -> A -> number) (P : A -> Prop)
  (xs : list A) :
  Forall P xs -> Forall P (Array_sort cmp xs).
Proof.
  intro H. eapply Permutation_Forall; [|exact H].
  apply Permutation_sym, Array_sort_Permutation.
Qed.

End SortFacts.

Module GeneticFacts.
Import JS AiModels NumberFacts RunFacts SortFacts.

Lemma Forall2_right {A B : Type} (P : B -> Prop) (xs : list A)
  (ys : list B) :
  Forall2 (fun _ y => P y) xs ys ->
  List.length ys = List.length xs /\ Forall P ys.
Proof.
  induction 1 as [|x y xs ys Hy _ [IHlen IH]]; simpl.
  - split; [reflexivity | constructor].
  - split; [congruence | constructor; assumption].
Qed.

Lemma Forall_firstn {A : Type} (P : A -> Prop) (n : nat) (l : list A) :
  Forall P l -> Forall P (firstn n l).
Proof.
  intro H. rewrite <- (firstn_skipn n l) in H.
  apply Forall_app in H. tauto.
Qed.

Lemma Forall_skipn {A : Type} (P : A -> Prop) (n : nat) (l : list A) :
  Forall P l -> Forall P (skipn n l).
Proof.
  intro H. rewrite <- (firstn_skipn n l) in H.
  apply Forall_app in H. tauto.
Qed.

Section Invariant.

(** A world invariant [I] and a property [J g] of the individuals after [g]
    generations that new individuals have at generation 0, that offspring
    inherit one generation later, and that ages well. *)
Variable I : World -> Prop.
Variable J : nat -> Individual -> Prop.
Hypothesis J_new : holds I new_individual (J 0).
Hypothesis J_offspring :
  forall g parent, J g parent -> holds I (make_offspring parent) (J (S g)).
Hypothesis J_older : forall g i, J g i -> J (S g) i.

Lemma generation_invariant (g : nat) (population : list Individual) :
  List.length population = 20%nat -> Forall (J g) population ->
  holds I (generation population)
    (fun out => List.length out = 20%nat /\ Forall (J (S g)) out).
Proof.
  intros Hlen Hall. unfold generation.
  set (sorted := Array_sort _ population).
  assert (Hslen : List.length sorted = 20%nat)
    by (unfold sorted; rewrite Array_sort_length; exact Hlen).
  assert (Hsall : Forall (J g) sorted)
    by (apply Array_sort_Forall; exact Hall).
  eapply holds_bind.
  - apply (holds_mapM I make_offspring (J g) (fun _ y => J (S g) y)).
    + intros x Hx. apply J_offspring. exact Hx.
    + unfold Array_slice0. apply Forall_firstn. exact Hsall.
  - intros offspring Hoff. apply Forall2_right in Hoff.
    destruct Hoff as [Holen Hoall].
    apply holds_ret. unfold Array_splice, Array_slice0 in *.
    rewrite length_firstn in Holen. split.
    + rewrite !length_app, length_firstn, length_skipn, Holen. lia.
    + apply Forall_app. split; [|apply Forall_app; split].
      * apply Forall_firstn. eapply Forall_impl; [apply J_older | exact Hsall].
      * exact Hoall.
      * apply Forall_skipn. eapply Forall_impl; [apply J_older | exact Hsall].
Qed.

Lemma evolve_invariant (n g : nat) (population : list Individual) :
  List.length population = 20%nat -> Forall (J g) population ->
  holds I (evolve n population)
    (fun out => List.length out = 20%nat /\ Forall (J (n + g)) out).
Proof.
  revert g population. induction n as [|n IH]; intros g population Hlen Hall.
  - apply holds_ret. split; assumption.
  - simpl. eapply holds_bind.
    + apply (generation_invariant g); assumption.
    + intros pop' [Hlen' Hall'].
      replace (S (n + g)) with (n + S g)%nat by lia.
      apply IH; assumption.
Qed.

Lemma evolved_population_invariant :
  holds I evolved_population
    (fun out => List.length out = 20%nat /\ Forall (J 10) out).
Proof.
  unfold evolved_population. eapply holds_bind.
  - apply holds_Array_from. exact J_new.
  - intros pop [Hlen Hall].
    exact (evolve_invariant 10 0 pop Hlen Hall).
Qed.

End Invariant.

(** *** Shape: every individual carries eight weights *)


Lemma new_individual_shape :
  holds (fun _ => True) new_individual eight_weights.
Proof.
  unfold new_individual. eapply holds_bind.
  - apply (holds_Array_from (fun _ => True) 8 _ (fun _ => True)).
    apply holds_trivial.
  - intros ws [Hlen _]. eapply holds_bind; [apply holds_trivial|].
    intros f _. apply holds_ret. exact Hlen.
Qed.

Lemma make_offspring_shape (parent : Individual) :
  eight_weights parent ->
  holds (fun _ => True) (make_offspring parent) eight_weights.
Proof.
  intro Hp. unfold make_offspring. eapply holds_bind.
  - apply (holds_mapM (fun _ => True) _ (fun _ => True) (fun _ _ => True)).
    + intros x _. apply holds_trivial.
    + apply Forall_forall. auto.
  - intros ws Hws. apply Forall2_right in Hws. destruct Hws as [Hlen _].
    eapply holds_bind; [apply holds_trivial|]. intros r _.
    apply holds_ret. unfold eight_weights in *. simpl. congruence.
Qed.

Lemma evolved_population_shape (w : World) :
  List.length (fst (evolved_population w)) = 20%nat
  /\ Forall eight_weights (fst (evolved_population w)).
Proof.
  destruct (evolved_population_invariant (fun _ => True)
              (fun _ => eight_weights) new_individual_shape
              (fun _ => make_offspring_shape) (fun _ _ H => H) w Logic.I)
    as [H _].
  exact H.
Qed.

(** *** Draws *)

Lemma draws_new_individual : draws new_individual 9 0.
Proof.
  unfold new_individual.
  eapply draws_eq;
    [ eapply draws_bind;
      [ apply (draws_Array_from 8 1);
        eapply draws_eq; [repeat draws_step | reflexivity | reflexivity]
      | intro; repeat draws_step ]
    | reflexivity | reflexivity ].
Qed.

Lemma draws_make_offspring (parent : Individual) :
  eight_weights parent -> draws (make_offspring parent) 9 0.
Proof.
  intro Hp. unfold make_offspring.
  eapply draws_eq;
    [ eapply draws_bind;
      [ apply (draws_mapM 1 _ (fun _ => True));
        [ intros x _;
          eapply draws_eq; [repeat draws_step | reflexivity | reflexivity]
        | apply Forall_forall; auto ]
      | intro; repeat draws_step ]
    | rewrite Hp; reflexivity | reflexivity ].
Qed.

Lemma draws_generation (population : list Individual) :
  List.length population = 20%nat -> Forall eight_weights population ->
  draws (generation population) 90 0.
Proof.
  intros Hlen Hall. unfold generation.
  set (sorted := Array_sort _ population).
  assert (Hslen : List.length sorted = 20%nat)
    by (unfold sorted; rewrite Array_sort_length; exact Hlen).
  assert (Hsall : Forall eight_weights sorted)
    by (apply Array_sort_Forall; exact Hall).
  eapply draws_eq;
    [ eapply draws_bind;
      [ apply (draws_mapM 9 _ eight_weights);
        [ exact draws_make_offspring
        | unfold Array_slice0; apply Forall_firstn; exact Hsall ]
      | intro; apply draws_ret ]
    | unfold Array_slice0; rewrite length_firstn, Hslen; reflexivity
    | reflexivity ].
Qed.

Lemma snd_evolve (n : nat) (population : list Individual) (w : World) :
  List.length population = 20%nat -> Forall eight_weights population ->
  snd (evolve n population w) = advance (n * 90) 0 w.
Proof.
  revert population w. induction n as [|n IH]; intros population w Hlen Hall.
  - simpl. symmetry. apply advance_0.
  - simpl evolve. rewrite bind_run.
    destruct (generation_invariant (fun _ => True) (fun _ => eight_weights)
                (fun _ => make_offspring_shape) (fun _ _ H => H) 0
                population Hlen Hall w Logic.I) as [[Hlen' Hall'] _].
    rewrite (IH _ _ Hlen' Hall').
    rewrite (draws_generation population Hlen Hall w).
    rewrite advance_advance. reflexivity.
Qed.

Lemma draws_evolved_population : draws evolved_population 1080 0.
Proof.
  intro w. unfold evolved_population. rewrite bind_run.
  destruct (holds_Array_from (fun _ => True) 20 new_individual eight_weights
              new_individual_shape w Logic.I) as [[Hlen Hall] _].
  rewrite (snd_evolve 10 _ _ Hlen Hall).
  rewrite (draws_Array_from 20 9 new_individual draws_new_individual w).
  rewrite advance_advance. reflexivity.
Qed.

End GeneticFacts.

(* ===================================================================== *)
(** * The synthetic data                                                   *)
(* ===================================================================== *)

Module SyntheticFacts.
Import JS AiModels RoundingFacts NumberFacts RunFacts.
Local Open Scope Q_scope.

(** ** Ranges *)

Lemma in_closed_range_between (lo hi : Q) (v a b : number) :
  leb a v = true -> leb v b = true ->
  leb (lit lo) a = true -> leb b (lit hi) = true ->
  in_closed_range lo hi v = true.
Proof.
  intros H1 H2 H3 H4. unfold in_closed_range. apply andb_true_iff. split.
  - apply (leb_trans _ _ _ H3 H1).
  - apply (leb_trans _ _ _ H2 H4).
Qed.

(** [lo + r * width] stays between the bounds its values at 0 and at 1
    respect. *)
Lemma affine_in_closed_range (lo hi : Q) (A C : number) (r : Q) :
  is_finite A = true -> is_finite C = true -> geb C (Fin 0) = true ->
  0 <= r -> r <= 1 ->
  leb (lit lo) (A + Fin 0 * C)%js = true ->
  leb (A + Fin 1 * C)%js (lit hi) = true ->
  in_closed_range lo hi (A + Fin r * C)%js = true.
Proof.
  intros HA HC HC0 H0 H1 Hlo Hhi.
  apply is_finite_Fin in HA, HC. destruct HA as [a ->], HC as [c ->].
  apply geb_Fin in HC0.
  destruct (affine_le a c r HC0 H0 H1) as [Hl Hu].
  exact (in_closed_range_between lo hi _ _ _ Hl Hu Hlo Hhi).
Qed.

Ltac closed := vm_compute; reflexivity.

(** ** One record *)

Lemma synthetic_record_run (w : World) :
  synthetic_record w
  = (let voltage := (lit 2.5 + draw w 0 * lit 3.5)%js in
     let current := (Fin 1500 + draw w 1 * Fin 3100)%js in
     let pulseOnTime := (Fin 2 + draw w 2 * Fin 8)%js in
     let dielectricFlow := (lit 0.7 + draw w 5 * lit 0.8)%js in
     {| voltage := voltage;
        current := current;
        pulseOnTime := pulseOnTime;
        pulseOffTime := (Fin 33 + draw w 3 * Fin 207)%js;
        wireSpeed := (Fin 1500 + draw w 4 * Fin 3100)%js;
        dielectricFlow := dielectricFlow;
        d_materialRemovalRate :=
          (voltage * current * pulseOnTime / Fin 1000)%js;
        d_surfaceRoughness := dielectricFlow;
        d_dimensionalAccuracy := (lit 0.070 + draw w 6 * lit 0.155)%js;
        d_processingTime :=
          Math_max (Fin 1)
            (Fin 60 - current / Fin 100 - voltage * Fin 2)%js |},
     advance 7 0 w).
Proof.
  unfold synthetic_record.
  repeat (rewrite bind_run, Math_random_run; cbn [fst snd];
          rewrite ?advance_advance).
  unfold ret, draw, advance.
  cbn [random_source random_calls clock_source clock_calls Nat.add].
  rewrite !Nat.add_0_r. reflexivity.
Qed.

Lemma synthetic_record_ranges (w : World) :
  unit_random w -> in_declared_ranges (fst (synthetic_record w)) = true.
Proof.
  intros Hw. rewrite synthetic_record_run. cbv zeta. cbn [fst].
  unfold in_declared_ranges, draw.
  cbn [voltage current pulseOnTime pulseOffTime dielectricFlow].
  pose proof (Hw (random_calls w + 0)%nat) as [? ?].
  pose proof (Hw (random_calls w + 1)%nat) as [? ?].
  pose proof (Hw (random_calls w + 2)%nat) as [? ?].
  pose proof (Hw (random_calls w + 3)%nat) as [? ?].
  pose proof (Hw (random_calls w + 5)%nat) as [? ?].
  apply andb_true_iff; split;
    [apply andb_true_iff; split;
     [apply andb_true_iff; split; [apply andb_true_iff; split |] |] |];
    (apply affine_in_closed_range; [closed | closed | closed | lra | lra
                                   | closed | closed]).
Qed.

(** ** The loop *)

Lemma synthetic_loop_holds (I : World -> Prop) (P : EDMTrainingData -> Prop)
  (n : nat) (data : list EDMTrainingData) :
  holds I synthetic_record P ->
  Forall P data ->
  holds I (synthetic_loop n data)
    (fun out => List.length out = (List.length data + n)%nat /\ Forall P out).
Proof.
  intro Hrec. revert data. induction n as [|n IH]; intros data Hdata; simpl.
  - apply holds_ret. split; [lia | assumption].
  - eapply holds_bind; [exact Hrec|]. intros d Hd.
    eapply holds_weaken.
    + apply IH. apply Forall_app.
      split; [assumption | repeat constructor; assumption].
    + intros out [Hlen Hout]. split; [|assumption].
      rewrite Hlen, length_app. simpl. lia.
Qed.

Lemma generateSyntheticData_holds (I : World -> Prop)
  (P : EDMTrainingData -> Prop) :
  holds I synthetic_record P ->
  holds I generateSyntheticData
    (fun out => List.length out = 100%nat /\ Forall P out).
Proof.
  intro Hrec. unfold generateSyntheticData.
  eapply holds_weaken.
  - apply synthetic_loop_holds; [exact Hrec | constructor].
  - intros out [Hlen Hout]. split; assumption.
Qed.

Lemma generateSyntheticData_length (w : World) :
  List.length (fst (generateSyntheticData w)) = 100%nat.
Proof.
  destruct (generateSyntheticData_holds (fun _ => True) (fun _ => True)
              (holds_trivial _) w I) as [[Hlen _] _].
  exact Hlen.
Qed.

Lemma draws_synthetic_record : draws synthetic_record 7 0.
Proof. intro w. rewrite synthetic_record_run. reflexivity. Qed.

Lemma draws_synthetic_loop (n : nat) (data : list EDMTrainingData) :
  draws (synthetic_loop n data) (n * 7) 0.
Proof.
  revert data. induction n as [|n IH]; intro data; simpl.
  - apply draws_ret.
  - eapply draws_eq;
      [eapply draws_bind; [exact draws_synthetic_record | intro d; apply IH]
      | reflexivity | reflexivity].
Qed.

Lemma draws_generateSyntheticData : draws generateSyntheticData 700 0.
Proof. exact (draws_synthetic_loop 100 []). Qed.

(** The loop appends one record per iteration, the [i]-th made from the
    seven draws that follow the first [7 * i]. *)
Lemma synthetic_loop_records (n : nat) (data : list EDMTrainingData)
  (w : World) :
  fst (synthetic_loop n data w)
  = data ++ map (fun i => fst (synthetic_record (advance (7 * i) 0 w)))
                (seq 0 n).
Proof.
  revert data w. induction n as [|n IH]; intros data w.
  - simpl. rewrite app_nil_r. reflexivity.
  - cbn [synthetic_loop]. rewrite bind_run, IH.
    rewrite (draws_synthetic_record w).
    rewrite <- app_assoc. f_equal.
    cbn [seq map app]. rewrite Nat.mul_0_r, advance_0. f_equal.
    rewrite <- seq_shift, map_map. apply map_ext. intros i.
    rewrite advance_advance. replace (7 * S i)%nat with (7 + 7 * i)%nat by lia.
    reflexivity.
Qed.

Lemma generateSyntheticData_nth (w : World) (i : nat) :
  (i < 100)%nat ->
  nth_error (fst (generateSyntheticData w)) i
  = Some (fst (synthetic_record (advance (7 * i) 0 w))).
Proof.
  intros Hi. unfold generateSyntheticData. rewrite synthetic_loop_records.
  rewrite app_nil_l.
  rewrite (nth_error_map
             (fun i => fst (synthetic_record (advance (7 * i) 0 w)))).
  rewrite nth_error_seq.
  destruct (Nat.ltb_spec i 100) as [_ | Hc]; [reflexivity | lia].
Qed.

Lemma draw_advance (n j : nat) (w : World) :
  draw (advance n 0 w) j = draw w (n + j).
Proof.
  unfold draw, advance. cbn. rewrite Nat.add_assoc. reflexivity.
Qed.

End SyntheticFacts.

(* ===================================================================== *)
(** * The four training runs                                               *)
(* ===================================================================== *)

Module TrainFacts.
Import JS AiModels NumberFacts RunFacts SortFacts GeneticFacts SyntheticFacts.

Lemma draws_load_data `{DatasetLoader} (u : bool) :
  draws (load_data u) (if u then 0 else 700) 0.
Proof.
  destruct u; simpl.
  - apply draws_ret.
  - apply draws_generateSyntheticData.
Qed.



Lemma trainSVM_run `{DatasetLoader} (u : bool) (w : World) :
  let n := if u then 0%nat else 700%nat in
  trainSVM u w
  = ({| accuracy :=
          (lit 0.87 + Fin (random_source w (random_calls w + n)) * lit 0.08)%js;
        trainingTime :=
          (Fin (inject_Z (clock_source w (clock_calls w + 1)))
           - Fin (inject_Z (clock_source w (clock_calls w))))%js;
        samples := length_of (training_data u w);
        rmse :=
          (lit 0.12
           + Fin (random_source w (random_calls w + n + 1)) * lit 0.08)%js;
        captured := svm_weights (training_data u w);
        predict := predictSVM |},
     advance (n + 2) 2 w).
Proof.
  intro n. unfold trainSVM, training_data.
  rewrite bind_run, Date_now_run. cbn [fst snd].
  rewrite bind_run, (draws_load_data u). fold n.
  rewrite advance_advance.
  rewrite bind_run, Math_random_run. cbn [fst snd]. rewrite advance_advance.
  rewrite bind_run, Date_now_run. cbn [fst snd]. rewrite advance_advance.
  rewrite bind_run, Math_random_run. cbn [fst snd]. rewrite advance_advance.
  unfold ret. cbn [advance random_source random_calls clock_source clock_calls].
  cbn [Nat.add]. rewrite ?Nat.add_0_r, ?Nat.add_assoc.
  f_equal. f_equal; lia.
Qed.



Ltac run_step :=
  rewrite bind_run;
  first [ rewrite Date_now_run | rewrite Math_random_run
        | rewrite (draws_load_data _) | rewrite (draws_random_array _ _)
        | rewrite draws_evolved_population ];
  cbn [fst snd]; rewrite ?advance_advance.

Ltac run_done :=
  unfold ret, training_data; rewrite ?Date_now_run;
  cbn [fst snd advance random_source random_calls clock_source clock_calls];
  rewrite <- ?Nat.add_assoc; cbn [Nat.add]; reflexivity.

Lemma trainANN_run `{MathLib} `{DatasetLoader} (u : bool) (w : World) :
  let n := if u then 0%nat else 700%nat in
  let data := training_data u w in
  let hiddenWeights :=
    fst (Array_from 8 (r <- Math_random ;; ret (r * Fin 2 - Fin 1)%js)
           (advance n 1 w)) in
  let outputWeights :=
    fst (Array_from 4 (r <- Math_random ;; ret (r * Fin 2 - Fin 1)%js)
           (advance (n + 8) 1 w)) in
  trainANN u w
  = ({| accuracy :=
          (lit 0.91
           + Fin (random_source w (random_calls w + n + 12)) * lit 0.06)%js;
        trainingTime :=
          (Fin (inject_Z (clock_source w (clock_calls w + 1)))
           - Fin (inject_Z (clock_source w (clock_calls w))))%js;
        samples := length_of data;
        rmse :=
          (lit 0.09
           + Fin (random_source w (random_calls w + n + 13)) * lit 0.06)%js;
        captured :=
          mkANN
            (map (fun x =>
                    (x * correlationFactor (calculateDataStatistics data))%js)
                 hiddenWeights)
            outputWeights;
        predict := predictANN |},
     advance (n + 14) 2 w).
Proof.
  intros n data hiddenWeights outputWeights.
  unfold trainANN, training_data in *.
  run_step. rewrite bind_run, (draws_load_data u). fold n.
  rewrite advance_advance.
  do 5 run_step.
  subst hiddenWeights outputWeights data. 
  run_done.
Qed.


Lemma trainELM_run `{MathLib} `{DatasetLoader} (u : bool) (w : World) :
  let n := if u then 0%nat else 700%nat in
  let data := training_data u w in
  let inputWeights :=
    fst (Array_from 16 (r <- Math_random ;; ret (r * Fin 4 - Fin 2)%js)
           (advance n 1 w)) in
  let biases :=
    fst (Array_from 4 (r <- Math_random ;; ret (r * Fin 2 - Fin 1)%js)
           (advance (n + 16) 1 w)) in
  trainELM u w
  = ({| accuracy :=
          (lit 0.94
           + Fin (random_source w (random_calls w + n + 20)) * lit 0.04)%js;
        trainingTime :=
          (Fin (inject_Z (clock_source w (clock_calls w + 1)))
           - Fin (inject_Z (clock_source w (clock_calls w))))%js;
        samples := length_of data;
        rmse :=
          (lit 0.06
           + Fin (random_source w (random_calls w + n + 21)) * lit 0.04)%js;
        captured :=
          mkELM
            (map (fun x =>
                    (x * varianceFactor (calculateDataStatistics data))%js)
                 inputWeights)
            biases;
        predict := predictELM |},
     advance (n + 22) 2 w).
Proof.
  intros n data inputWeights biases.
  unfold trainELM.
  run_step. rewrite bind_run, (draws_load_data u). fold n.
  rewrite advance_advance.
  do 5 run_step.
  subst inputWeights biases data.
  run_done.
Qed.

Lemma trainGA_run `{DatasetLoader} (u : bool) (w : World) :
  let n := if u then 0%nat else 700%nat in
  trainGA u w
  = ({| accuracy :=
          (lit 0.89
           + Fin (random_source w (random_calls w + n + 1080)) * lit 0.07)%js;
        trainingTime :=
          (Fin (inject_Z (clock_source w (clock_calls w + 1)))
           - Fin (inject_Z (clock_source w (clock_calls w))))%js;
        samples := length_of (training_data u w);
        rmse :=
          (lit 0.10
           + Fin (random_source w (random_calls w + n + 1081)) * lit 0.07)%js;
        captured :=
          first_individual (fst (evolved_population (advance n 1 w)));
        predict := predictGA |},
     advance (n + 1082) 2 w).
Proof.
  intro n. unfold trainGA.
  run_step. rewrite bind_run, (draws_load_data u). fold n.
  rewrite advance_advance.
  do 4 run_step.
  run_done.
Qed.

End TrainFacts.

(* ===================================================================== *)
(** * The predictors                                                       *)
(* ===================================================================== *)

Module PredictFacts.
Import JS AiModels RoundingFacts NumberFacts RunFacts SortFacts GeneticFacts.
Import SyntheticFacts TrainFacts.
Local Open Scope Q_scope.

(** ** The two outputs all kinds share *)

Lemma mul_not_nan (x : number) (c : Q) :
  is_nan x = false -> ~ c == 0 -> is_nan (x * Fin c)%js = false.
Proof.
  intros Hx Hc.
  destruct x as [| | |q]; cbn [mul]; try discriminate;
    try apply round64_not_nan;
    unfold scale_inf; destruct (c ?= 0) eqn:E; try reflexivity;
    apply Qeq_alt in E; contradiction.
Qed.

Lemma shared_floors (p : Params) :
  geb (Math_max (lit 0.1) (surfaceRoughness p || lit 1.0)%js) (lit 0.1)
  = true
  /\ geb (Math_max (Fin 1) ((deviation p || lit 0.1) * Fin 1000)%js) (Fin 1)
     = true.
Proof.
  split; apply Math_max_floor.
  - closed.
  - apply or_default_not_nan. closed.
  - reflexivity.
  - apply mul_not_nan; [apply or_default_not_nan; closed | discriminate].
Qed.

(** ** Magnitudes *)

Lemma modest_field_default (v : option number) (d : number) :
  modest_field v = true -> within (pow2 100) d = true ->
  within (pow2 100) (v || d)%js = true.
Proof.
  intros Hv Hd. apply or_default_within; [| assumption].
  destruct v; [exact Hv | exact I].
Qed.

Lemma modest_params_inv (p : Params) :
  modest_params p = true ->
  modest_field (laserPower p) = true /\ modest_field (speed p) = true
  /\ modest_field (thickness p) = true
  /\ modest_field (linearEnergy p) = true
  /\ modest_field (surfaceRoughness p) = true
  /\ modest_field (deviation p) = true.
Proof. unfold modest_params. rewrite !andb_true_iff. tauto. Qed.

Lemma within_tanh `{MathLibSpec} (b : Q) (x : number) :
  within b x = true -> within (pow2 0) (Math_tanh x) = true.
Proof.
  intros Hx. apply within_Fin in Hx. destruct Hx as [q [-> _]].
  destruct (Math_tanh_range q) as [t [-> [H1 H2]]].
  apply within_Fin. exists t. change (pow2 0) with 1. auto.
Qed.

(** The logistic unit of the ELM: finite and between 0 and 1, also when the
    exponential overflows. *)
Lemma within_sigmoid `{MathLibSpec} (b : Q) (x : number) :
  within b x = true ->
  within (pow2 0) (Fin 1 / (Fin 1 + Math_exp (- x)))%js = true.
Proof.
  intros Hx. apply within_Fin in Hx. destruct Hx as [q [-> _]]. cbn [neg].
  destruct (Math_exp_range (- q)) as [-> | [e [-> He]]]; [reflexivity |].
  cbn [add].
  pose proof (round64_le 1 (1 + e)) as Hr.
  assert (E1 : round64 1 = Fin 1) by closed.
  rewrite E1 in Hr.
  destruct (round64 (1 + e)) as [| | |v] eqn:Ev;
    try (cbn in Hr; specialize (Hr ltac:(lra)); discriminate);
    [reflexivity |].
  assert (Hv : 1 <= v) by (apply leb_Fin_inv, Hr; lra).
  cbn [div]. rewrite Qeq_bool_false by lra.
  assert (0 < / v) by (apply Qinv_lt_0_compat; lra).
  assert (/ v <= 1) by (apply Qle_shift_inv_r; lra).
  apply (within_round64 1); unfold Qdiv; try lra. closed.
Qed.

Ltac level :=
  lazymatch goal with
  | |- within _ (Math_tanh _) = true => eapply within_tanh; level
  | |- within _ (Fin 1 / (Fin 1 + Math_exp (- _)))%js = true =>
      eapply within_sigmoid; level
  | |- within _ (_ + _)%js = true =>
      eapply within_add_pow2; [level | level | lia]
  | |- within _ (_ - _)%js = true =>
      eapply within_sub_pow2; [level | level | lia]
  | |- within _ (_ * _)%js = true =>
      eapply within_mul_pow2; [level | level | lia]
  | |- within _ (_ / Fin _)%js = true =>
      eapply within_div_pow2; [level | discriminate | lia]
  | |- within _ (_ || _)%js = true =>
      apply modest_field_default; [assumption | closed]
  | |- within _ (at_index _ _) = true =>
      eapply within_at_index; [eassumption | cbn; lia]
  | |- within _ (Fin _) = true => apply (within_constant 13); closed
  | |- within _ (lit _) = true => apply (within_constant 13); closed
  | |- within _ _ = true => eassumption
  end.

Ltac floors_tac p Hp :=
  destruct (shared_floors p) as [Hsr Hda];
  apply modest_params_inv in Hp;
  destruct Hp as (Hlp & Hsp & Hth & Hle & Hro & Hdv);
  unfold floors; cbn [fst materialRemovalRate surfaceRoughness_out
                      dimensionalAccuracy processingTime];
  rewrite Hsr, Hda, !andb_true_r; apply andb_true_iff; split;
  (apply Math_max_floor; [reflexivity | eapply within_finite]).

Lemma predictSVM_floors (p : Params) (ws : Weights) :
  modest_params p = true ->
  within (pow2 100) (w_voltage ws) = true ->
  within (pow2 100) (w_current ws) = true ->
  within (pow2 100) (w_pulseOn ws) = true ->
  within (pow2 100) (w_pulseOff ws) = true ->
  floors (fst (predictSVM p ws)) = true.
Proof.
  intros Hp Hv Hc Hon Hoff. unfold predictSVM.
  floors_tac p Hp; level.
Qed.

Lemma predictANN_floors `{MathLibSpec} (p : Params) (c : ANNCaptured) :
  modest_params p = true ->
  List.length (hiddenWeights c) = 8%nat ->
  Forall (fun v => within (pow2 100) v = true) (hiddenWeights c) ->
  List.length (outputWeights c) = 4%nat ->
  Forall (fun v => within (pow2 0) v = true) (outputWeights c) ->
  floors (fst (predictANN p c)) = true.
Proof.
  intros Hp Hhl Hh Hol Ho. unfold predictANN, normalised_inputs.
  floors_tac p Hp; cbn [mapi mapi_from at_index nth];
    fold (at_index (hiddenWeights c)); fold (at_index (outputWeights c));
    rewrite ?Hhl, ?Hol; level.
Qed.

Lemma predictELM_floors `{MathLibSpec} (p : Params) (c : ELMCaptured) :
  modest_params p = true ->
  List.length (inputWeights c) = 16%nat ->
  Forall (fun v => within (pow2 101) v = true) (inputWeights c) ->
  List.length (biases c) = 4%nat ->
  Forall (fun v => within (pow2 0) v = true) (biases c) ->
  floors (fst (predictELM p c)) = true.
Proof.
  intros Hp Hil Hi Hbl Hb. unfold predictELM, normalised_inputs.
  floors_tac p Hp;
    cbn [mapi mapi_from reducei reducei_from Nat.modulo Nat.divmod Nat.add
         fst snd Nat.sub];
    rewrite ?Hil, ?Hbl; level.
Qed.

Lemma predictGA_floors (p : Params) (best : Individual) :
  modest_params p = true ->
  List.length (weights best) = 8%nat ->
  Forall (fun v => within (pow2 4) v = true) (weights best) ->
  floors (fst (predictGA p best)) = true.
Proof.
  intros Hp Hl Hw. unfold predictGA, normalised_inputs.
  floors_tac p Hp;
    cbn [mapi mapi_from reducei reducei_from Nat.modulo Nat.divmod Nat.add
         fst snd Nat.sub];
    rewrite ?Hl; level.
Qed.

End PredictFacts.

(* ===================================================================== *)
(** * The coefficients a training run captures                            *)
(* ===================================================================== *)

Module GeneticRanges.
Import JS AiModels RoundingFacts NumberFacts RunFacts SortFacts GeneticFacts.
Import SyntheticFacts TrainFacts PredictFacts.
Local Open Scope Q_scope.

Lemma within_draw (r : Q) : 0 <= r -> r < 1 -> within 1 (Fin r) = true.
Proof.
  intros H0 H1. apply within_Fin. exists r. split; [reflexivity | lra].
Qed.

(** [r * 2 - 1] and [r * 4 - 2] for a draw [r]. *)
Lemma centred_draw_2 (r : Q) :
  0 <= r -> r < 1 -> within (pow2 0) (Fin r * Fin 2 - Fin 1)%js = true.
Proof.
  intros H0 H1. unfold sub. cbn [mul neg].
  destruct (round64_between 0 2 0 2 (r * 2)) as [v [-> [Hv0 Hv2]]];
    [lra | lra | closed | closed |].
  cbn [add]. apply (within_round64 1); [lra | lra | closed].
Qed.

Lemma centred_draw_4 (r : Q) :
  0 <= r -> r < 1 -> within (pow2 1) (Fin r * Fin 4 - Fin 2)%js = true.
Proof.
  intros H0 H1. unfold sub. cbn [mul neg].
  destruct (round64_between 0 4 0 4 (r * 4)) as [v [-> [Hv0 Hv4]]];
    [lra | lra | closed | closed |].
  cbn [add]. apply (within_round64 2); [lra | lra | closed].
Qed.

(** The jitter [(r - 0.5) * 0.1] of an offspring's weight. *)
Lemma within_jitter (r : Q) :
  0 <= r -> r < 1 -> within 1 ((Fin r - lit 0.5) * lit 0.1)%js = true.
Proof.
  intros H0 H1.
  apply (within_mul 2 (1 # 2)); [| closed | closed].
  apply (within_sub 1 1); [apply within_draw; assumption | closed | closed].
Qed.

Lemma random_array_within (n : nat) (g : number -> number) (b : Q)
  (w : World) :
  unit_random w ->
  (forall q, 0 <= q -> q < 1 -> within b (g (Fin q)) = true) ->
  let xs := fst (Array_from n (r <- Math_random ;; ret (g r)) w) in
  List.length xs = n /\ Forall (fun v => within b v = true) xs.
Proof.
  intros Hw Hg xs.
  destruct (holds_Array_from unit_random n
              (r <- Math_random ;; ret (g r))
              (fun v => within b v = true)) with (w := w) as [H _].
  - eapply holds_bind; [exact holds_random_unit |].
    intros v [q [-> [H0 H1]]]. apply holds_ret. apply Hg; assumption.
  - exact Hw.
  - exact H.
Qed.

Lemma Forall_within_scaled (xs : list number) (c : number) (i j : Z) :
  Forall (fun v => within (pow2 i) v = true) xs ->
  within (pow2 j) c = true -> (-1074 <= i + j <= 1023)%Z ->
  Forall (fun v => within (pow2 (i + j)) v = true)
    (map (fun x => (x * c)%js) xs).
Proof.
  intros H Hc Hk. apply Forall_map. eapply Forall_impl; [| exact H].
  intros v Hv. apply within_mul_pow2; assumption.
Qed.

(** ** The weights of the population *)

Lemma weights_within_inv (g : nat) (i : Individual) :
  weights_within g i = true <->
  List.length (weights i) = 8%nat
  /\ Forall (fun v => within (inject_Z (Z.of_nat (2 + g))) v = true)
       (weights i).
Proof.
  unfold weights_within.
  rewrite andb_true_iff, Nat.eqb_eq, forallb_forall, Forall_forall.
  tauto.
Qed.

Lemma whole_bound_S (g : nat) :
  (g < 10)%nat ->
  leb (round64 (inject_Z (Z.of_nat (2 + g)) + 1))
      (Fin (inject_Z (Z.of_nat (2 + S g)))) = true.
Proof.
  intros Hg.
  rewrite (round64_ext _ (inject_Z (Z.of_nat (2 + S g)))).
  - rewrite round64_Z by lia. apply leb_refl. reflexivity.
  - replace (Z.of_nat (2 + S g)) with (Z.of_nat (2 + g) + 1)%Z by lia.
    rewrite inject_Z_plus. reflexivity.
Qed.

Lemma new_individual_within :
  holds unit_random new_individual
    (fun i => (0 <= 10)%nat -> weights_within 0 i = true).
Proof.
  unfold new_individual. eapply holds_bind.
  - apply (holds_Array_from unit_random 8 _
             (fun v => within (pow2 1) v = true)).
    eapply holds_bind; [exact holds_random_unit |].
    intros v [q [-> [H0 H1]]]. apply holds_ret.
    apply centred_draw_4; assumption.
  - intros ws [Hlen Hws]. eapply holds_bind; [exact holds_random_unit |].
    intros f _. apply holds_ret. intros _.
    apply weights_within_inv. cbn [weights]. split; [exact Hlen |].
    exact Hws.
Qed.

Lemma make_offspring_within (g : nat) (parent : Individual) :
  ((g <= 10)%nat -> weights_within g parent = true) ->
  holds unit_random (make_offspring parent)
    (fun i => (S g <= 10)%nat -> weights_within (S g) i = true).
Proof.
  intros Hp. unfold make_offspring.
  destruct (le_lt_dec (S g) 10) as [Hg | Hg].
  - assert (Hparent : weights_within g parent = true) by (apply Hp; lia).
    apply weights_within_inv in Hparent. destruct Hparent as [Hlen Hws].
    eapply holds_bind.
    + apply (holds_mapM unit_random _
               (fun v => within (inject_Z (Z.of_nat (2 + g))) v = true)
               (fun _ y => within (inject_Z (Z.of_nat (2 + S g))) y = true)).
      * intros x Hx. eapply holds_bind; [exact holds_random_unit |].
        intros v [q [-> [H0 H1]]]. apply holds_ret.
        apply (within_add (inject_Z (Z.of_nat (2 + g))) 1);
          [assumption | apply within_jitter; assumption
          | apply whole_bound_S; lia].
      * exact Hws.
    + intros ws Hws'. apply Forall2_right in Hws'.
      destruct Hws' as [Hlen' Hall].
      eapply holds_bind; [exact holds_random_unit |].
      intros r _. apply holds_ret. intros _.
      apply weights_within_inv. cbn [weights]. split; [congruence |].
      exact Hall.
  - apply holds_weaken with (P := fun _ => True); [| intros i _ Hc; lia].
    eapply holds_bind.
    + apply (holds_mapM unit_random _ (fun _ => True) (fun _ _ => True)).
      * intros x _. eapply holds_bind; [exact holds_random_unit |].
        intros v _. apply holds_ret. exact I.
      * apply Forall_forall. auto.
    + intros ws _. eapply holds_bind; [exact holds_random_unit |].
      intros r _. apply holds_ret. exact I.
Qed.

Lemma weights_within_older (g : nat) (i : Individual) :
  ((g <= 10)%nat -> weights_within g i = true) ->
  (S g <= 10)%nat -> weights_within (S g) i = true.
Proof.
  intros H Hg. specialize (H ltac:(lia)).
  apply weights_within_inv in H. destruct H as [Hlen Hws].
  apply weights_within_inv. split; [assumption |].
  eapply Forall_impl; [| exact Hws]. intros v Hv.
  apply (within_weaken _ _ _ Hv). rewrite <- Zle_Qle. lia.
Qed.

(** The individual [trainGA] captures has eight weights of magnitude at
    most 12. *)
Lemma best_individual_within (w : World) :
  unit_random w ->
  weights_within 10 (first_individual (fst (evolved_population w))) = true.
Proof.
  intro Hw.
  destruct (evolved_population_invariant unit_random
              (fun g i => (g <= 10)%nat -> weights_within g i = true)
              new_individual_within make_offspring_within
              weights_within_older w Hw) as [[Hlen Hall] _].
  destruct (fst (evolved_population w)) as [| best rest]; [discriminate |].
  inversion Hall; subst. cbn [first_individual hd]. auto.
Qed.

End GeneticRanges.

Module ModelFacts.
Import JS AiModels RoundingFacts NumberFacts RunFacts SortFacts GeneticFacts.
Import SyntheticFacts TrainFacts PredictFacts GeneticRanges.
Local Open Scope Q_scope.

(** The floors hold when the coefficients derived from the data and the
    fields of [params] are finite and of modest magnitude. *)
Lemma floors_of_train `{MathLibSpec} `{DatasetLoader} (kind : ModelKind)
  (u : bool) (w : World) (params : Params) :
  unit_random w ->
  modest_coefficients kind (training_data u w) = true ->
  modest_params params = true ->
  floors (call (fst (train kind u w)) params) = true.
Proof.
  intros Hw Hdata Hp.
  destruct kind; unfold train, modest_coefficients in *.
  - rewrite trainSVM_run. unfold call. cbn [fst predict captured].
    apply andb_true_iff in Hdata. destruct Hdata as [Hv Hc].
    apply predictSVM_floors; try assumption; closed.
  - rewrite trainANN_run. unfold call. cbn [fst predict captured].
    apply predictANN_floors; cbn [hiddenWeights outputWeights];
      try exact Hp.
    + rewrite length_map.
      apply (random_array_within 8 _ (pow2 0));
        [apply unit_random_advance, Hw | exact centred_draw_2].
    + apply (Forall_within_scaled _ _ 0 100); [| assumption | lia].
      apply (random_array_within 8 _ (pow2 0));
        [apply unit_random_advance, Hw | exact centred_draw_2].
    + apply (random_array_within 4 _ (pow2 0));
        [apply unit_random_advance, Hw | exact centred_draw_2].
    + apply (random_array_within 4 _ (pow2 0));
        [apply unit_random_advance, Hw | exact centred_draw_2].
  - rewrite trainELM_run. unfold call. cbn [fst predict captured].
    apply predictELM_floors; cbn [inputWeights biases]; try exact Hp.
    + rewrite length_map.
      apply (random_array_within 16 _ (pow2 1));
        [apply unit_random_advance, Hw | exact centred_draw_4].
    + apply (Forall_within_scaled _ _ 1 100); [| assumption | lia].
      apply (random_array_within 16 _ (pow2 1));
        [apply unit_random_advance, Hw | exact centred_draw_4].
    + apply (random_array_within 4 _ (pow2 0));
        [apply unit_random_advance, Hw | exact centred_draw_2].
    + apply (random_array_within 4 _ (pow2 0));
        [apply unit_random_advance, Hw | exact centred_draw_2].
  - rewrite trainGA_run. unfold call. cbn [fst predict captured].
    pose proof (best_individual_within
                  (advance (if u then 0 else 700) 1 w)
                  (unit_random_advance _ _ _ Hw)) as Hb.
    apply weights_within_inv in Hb. destruct Hb as [Hlen Hws].
    apply predictGA_floors; try assumption.
    eapply Forall_impl; [| exact Hws]. intros v Hv.
    apply (within_weaken _ _ _ Hv). apply Qle_bool_iff. closed.
Qed.

End ModelFacts.

(* ===================================================================== *)
(** * The instances the model is run on                                    *)
(* ===================================================================== *)

Module Instances.
Import JS AiModels RoundingFacts NumberFacts SyntheticFacts.
Local Open Scope Q_scope.

Lemma rational_math_spec : @MathLibSpec rational_math.
Proof.
  constructor.
  - intro q. cbn [Math_tanh rational_math rational_tanh].
    assert (Ha : 0 <= Qabs q) by apply Qabs_nonneg.
    assert (Hle : q <= Qabs q) by apply Qle_Qabs.
    assert (Hge : - Qabs q <= q).
    { rewrite <- (Qopp_involutive q) at 2. apply Qopp_le_compat.
      rewrite <- Qabs_opp. apply Qle_Qabs. }
    destruct (round64_between (-1) 1 (-1) 1 (q / (1 + Qabs q)))
      as [t [-> Ht]]; [| | closed | closed | eauto].
    + apply Qle_shift_div_l; lra.
    + apply Qle_shift_div_r; lra.
  - intro q. cbn [Math_exp rational_math rational_exp].
    assert (H0 : round64 0 = Fin 0) by reflexivity.
    assert (Hpos : forall x, 0 <= x ->
              round64 x = PosInf
              \/ exists e, round64 x = Fin e /\ 0 <= e).
    { intros x Hx. pose proof (round64_le 0 x Hx) as Hr. rewrite H0 in Hr.
      destruct (round64 x) as [| | |e]; cbn in Hr; try discriminate; auto.
      right. exists e. split; [reflexivity |]. apply Qle_bool_iff, Hr. }
    destruct (Qle_bool 0 q) eqn:E.
    + apply Qle_bool_iff in E. apply Hpos. lra.
    + apply Qle_bool_false in E. apply Hpos.
      apply Qle_shift_div_l; lra.
Qed.

Lemma constant_world_unit (r : Q) :
  0 <= r -> r < 1 -> unit_random (constant_world r).
Proof. intros H0 H1 n. simpl. split; assumption. Qed.

Lemma constant_world_monotonic (r : Q) : monotonic_clock (constant_world r).
Proof. intro n. simpl. lia. Qed.


End Instances.

(* ===================================================================== *)
(** * The claims about the predictor factory                               *)
(* ===================================================================== *)

Module Claims.
Import JS AiModels RoundingFacts NumberFacts RunFacts SortFacts GeneticFacts.
Import SyntheticFacts TrainFacts PredictFacts GeneticRanges ModelFacts.
Import Instances.
Local Open Scope Q_scope.

Lemma call_shared_outputs `{MathLib} `{DatasetLoader} (kind : ModelKind)
  (u : bool) (w : World) (params : Params) :
  surfaceRoughness_out (call (fst (train kind u w)) params)
  = Math_max (lit 0.1) (surfaceRoughness params || lit 1.0)%js
  /\ dimensionalAccuracy (call (fst (train kind u w)) params)
     = Math_max (Fin 1) ((deviation params || lit 0.1) * Fin 1000)%js.
Proof.
  destruct kind; unfold train;
    [rewrite trainSVM_run | rewrite trainANN_run | rewrite trainELM_run
    | rewrite trainGA_run];
    split; reflexivity.
Qed.

(** The materialRemovalRate and the processingTime of every kind are a
    [Math.max] with the floor. *)
Lemma call_floored_outputs `{MathLib} `{DatasetLoader} (kind : ModelKind)
  (u : bool) (w : World) (params : Params) :
  floored_unless_nan (Fin 0)
    (materialRemovalRate (call (fst (train kind u w)) params)) = true
  /\ floored_unless_nan (Fin 1)
       (processingTime (call (fst (train kind u w)) params)) = true.
Proof.
  destruct kind; unfold train;
    [rewrite trainSVM_run | rewrite trainANN_run | rewrite trainELM_run
    | rewrite trainGA_run];
    unfold call; cbn [fst predict captured];
    split; apply Math_max_floored; reflexivity.
Qed.

(** C1 (amended). For every kind of model, every data set and every params
    object, [predict] returns a surfaceRoughness of at least 0.1 and a
    dimensionalAccuracy of at least 1, and a materialRemovalRate and a
    processingTime that are NaN or at least 0 and 1. All four floors
    (materialRemovalRate >= 0, surfaceRoughness >= 0.1, dimensionalAccuracy
    >= 1, processingTime >= 1) hold when the draws lie in [0, 1), the
    coefficients derived from the data are finite and at most 2^100 in
    magnitude, and every field of params is missing or a finite number of
    magnitude at most 2^100; the empty object is such a params. *)
Theorem predict_floors `{MathLibSpec} `{DatasetLoader} (kind : ModelKind)
  (useRealData : bool) (w : World) (params : Params) :
  let out := call (fst (train kind useRealData w)) params in
  geb (surfaceRoughness_out out) (lit 0.1) = true
  /\ geb (dimensionalAccuracy out) (Fin 1) = true
  /\ floored_unless_nan (Fin 0) (materialRemovalRate out) = true
  /\ floored_unless_nan (Fin 1) (processingTime out) = true
  /\ (unit_random w ->
      modest_coefficients kind (training_data useRealData w) = true ->
      modest_params params = true ->
      floors out = true).
Proof.
  intros out. subst out.
  destruct (call_floored_outputs kind useRealData w params) as [Hm Ht].
  destruct (call_shared_outputs kind useRealData w params) as [Es Ed].
  destruct (shared_floors params) as [Hsr Hda].
  rewrite Es, Ed.
  split; [exact Hsr |]. split; [exact Hda |].
  split; [exact Hm |]. split; [exact Ht |].
  intros Hw Hdata Hp. apply floors_of_train; assumption.
Qed.

Lemma predict_floors_witness :
  unit_random (constant_world 0.5)
  /\ @modest_coefficients rational_math SVM
       (@training_data two_records true (constant_world 0.5)) = true
  /\ modest_params empty_params = true
  /\ floors (call (fst (@train rational_math two_records SVM true
                          (constant_world 0.5))) empty_params) = true.
Proof.
  assert (Hw : unit_random (constant_world 0.5))
    by (apply constant_world_unit; lra).
  assert (Hd : @modest_coefficients rational_math SVM
                 (@training_data two_records true (constant_world 0.5))
               = true) by closed.
  split; [exact Hw |]. split; [exact Hd |]. split; [reflexivity |].
  exact (proj2 (proj2 (proj2 (proj2
           (@predict_floors rational_math rational_math_spec two_records
              SVM true (constant_world 0.5) empty_params))))
           Hw Hd eq_refl).
Defined.

(** C1, as stated, fails. The SVM trained on two records, asked about a
    params object with laserPower +Infinity and speed -Infinity, returns
    NaN for processingTime. The SVM trained on one record with voltage 1,
    current 1 and materialRemovalRate 100, asked about the finite
    laserPower 1e308 and speed -1e308, overflows to Infinity + -Infinity
    and returns NaN for materialRemovalRate. Trained on a record whose
    materialRemovalRate is 1e308, it does so for laserPower 100 and speed
    -10000. Trained on no record at all, it returns NaN for
    materialRemovalRate even for the empty params object. NaN >= 0 is
    false. *)
Lemma predict_floors_counterexample :
  let w := constant_world 0.5 in
  let infinite := mkParams (Some PosInf) (Some NegInf) None None None None in
  let large :=
    mkParams (Some (lit 1e308)) (Some (lit (-1e308))) None None None None in
  let small :=
    mkParams (Some (Fin 100)) (Some (Fin (-10000))) None None None None in
  (processingTime
     (call (fst (@train rational_math two_records SVM true w)) infinite)
   = NaN
   /\ floors
        (call (fst (@train rational_math two_records SVM true w)) infinite)
      = false)
  /\ (is_finite (lit 1e308) = true
      /\ materialRemovalRate
           (call (fst (@train rational_math one_record SVM true w)) large)
         = NaN
      /\ floors
           (call (fst (@train rational_math one_record SVM true w)) large)
         = false)
  /\ (modest_params small = true
      /\ materialRemovalRate
           (call (fst (@train rational_math huge_record SVM true w)) small)
         = NaN
      /\ floors
           (call (fst (@train rational_math huge_record SVM true w)) small)
         = false)
  /\ (materialRemovalRate
        (call (fst (@train rational_math no_records SVM true w))
           empty_params)
      = NaN
      /\ floors
           (call (fst (@train rational_math no_records SVM true w))
              empty_params)
         = false).
Proof. vm_compute. repeat split. Qed.




Lemma thickness_default (t1 t2 : number) :
  leb t1 t2 = true ->
  leb (Some t1 || Fin 0)%js (Some t2 || Fin 0)%js = true.
Proof.
  destruct t1 as [| | |q1], t2 as [| | |q2]; cbn; try congruence;
    intros H;
    repeat match goal with
    | |- context [Qeq_bool ?a 0] =>
        let E := fresh "E" in
        destruct (Qeq_bool a 0) eqn:E; cbn;
        [apply Qeq_bool_eq in E |]
    end;
    try reflexivity; try apply Qle_bool_iff in H;
    try (apply Qle_bool_iff; lra).
Qed.

Lemma pulseOn_weight :
  exists c, lit (-0.008) = Fin c /\ c < 0.
Proof.
  destruct (lit (-0.008)) as [| | |c] eqn:E;
    try (vm_compute in E; discriminate).
  exists c. split; [reflexivity |].
  assert (Hc : ltb (lit (-0.008)) (Fin 0) = true) by closed.
  rewrite E in Hc. apply ltb_Fin in Hc. exact Hc.
Qed.

(** C3 (amended). In the SVM predictor the term from thickness is added,
    not subtracted: the code subtracts [weights.pulseOn * thickness] with
    pulseOn = -0.008. Whatever the data, the draws and the other inputs, a
    larger thickness never gives a smaller predicted materialRemovalRate
    (a prediction that is NaN is neither smaller nor larger). *)
Theorem svm_thickness_never_lowers_rate `{DatasetLoader}
  (useRealData : bool) (w : World) (params : Params) (t1 t2 : number) :
  leb t1 t2 = true ->
  let r := fst (trainSVM useRealData w) in
  ltb (materialRemovalRate (call r (with_thickness params (Some t2))))
      (materialRemovalRate (call r (with_thickness params (Some t1))))
  = false.
Proof.
  intros Ht r. subst r.
  rewrite trainSVM_run. unfold call. cbn [fst predict captured].
  unfold predictSVM, with_thickness, svm_weights.
  cbn [fst materialRemovalRate laserPower speed thickness linearEnergy
       w_voltage w_current w_pulseOn w_pulseOff].
  destruct pulseOn_weight as [c [-> Hc]].
  apply le_unless_nan_ltb, le_unless_nan_max, le_unless_nan_add_l,
    le_unless_nan_sub_r, le_unless_nan_mul_neg; [exact Hc |].
  apply le_unless_nan_leb, thickness_default, Ht.
Qed.

Lemma svm_thickness_never_lowers_rate_witness :
  leb (Fin 2) (Fin 10) = true
  /\ (let r := fst (@trainSVM two_records true (constant_world 0.5)) in
      ltb (materialRemovalRate
             (call r (with_thickness empty_params (Some (Fin 10)))))
          (materialRemovalRate
             (call r (with_thickness empty_params (Some (Fin 2))))))
     = false.
Proof.
  split; [reflexivity |].
  exact (@svm_thickness_never_lowers_rate two_records true
           (constant_world 0.5) empty_params (Fin 2) (Fin 10) eq_refl).
Defined.

(** C3, as stated, fails: with every other input missing, the SVM trained
    on two records predicts a materialRemovalRate of 0.016 for thickness 2
    and of 0.08 for thickness 10, so increasing the thickness increased the
    prediction. *)
Lemma svm_thickness_counterexample :
  let r := fst (@trainSVM two_records true (constant_world 0.5)) in
  let thin := call r (with_thickness empty_params (Some (Fin 2))) in
  let thick := call r (with_thickness empty_params (Some (Fin 10))) in
  materialRemovalRate thin = lit 0.016
  /\ materialRemovalRate thick = lit 0.08
  /\ ltb (materialRemovalRate thin) (materialRemovalRate thick) = true.
Proof. vm_compute. repeat split. Qed.

(** C6 (a defect of the code). The predict closure of [trainGA] uses
    [population[0]] of the population the generation loop leaves, which is
    not sorted after the last splice: when every draw is 0.875, the
    individual it captures is less fit than the eleventh individual of the
    final population, an offspring of the last generation. *)
Theorem ga_best_is_not_the_fittest `{DatasetLoader} (useRealData : bool)
  (w : World) (params : Params) :
  (let population :=
     fst (evolved_population
            (advance (if useRealData then 0 else 700) 1 w)) in
   call (fst (trainGA useRealData w)) params
   = fst (predictGA params (first_individual population)))
  /\ (let unlucky :=
        fst (evolved_population (advance 0 1 (constant_world 0.875))) in
      List.length unlucky = 20%nat
      /\ ltb (fitness (first_individual unlucky))
             (fitness (nth 10 unlucky (first_individual unlucky))) = true
      /\ forallb (fun i => geb (fitness (first_individual unlucky))
                               (fitness i))
           unlucky = false).
Proof.
  split.
  - cbv zeta. rewrite trainGA_run. reflexivity.
  - vm_compute. repeat split.
Qed.

(** C7. The synthetic generator returns exactly 100 records and consumes
    700 draws: the record at index [i] is made from the seven draws that
    follow the first [7 * i], one draw for each of voltage, current,
    pulseOnTime, pulseOffTime, wireSpeed, dielectricFlow and
    dimensionalAccuracy, scaled into the range of the field; when the
    draws lie in [0, 1) the five inputs lie in the declared ranges. Every
    kind of model trained without real data reports 100 samples. *)
Theorem synthetic_data_has_100_records `{MathLib} `{DatasetLoader}
  (w : World) :
  let data := fst (generateSyntheticData w) in
  List.length data = 100%nat
  /\ snd (generateSyntheticData w) = advance 700 0 w
  /\ (forall i, (i < 100)%nat ->
      exists d,
        nth_error data i = Some d
        /\ voltage d = (lit 2.5 + draw w (7 * i) * lit 3.5)%js
        /\ current d = (Fin 1500 + draw w (7 * i + 1) * Fin 3100)%js
        /\ pulseOnTime d = (Fin 2 + draw w (7 * i + 2) * Fin 8)%js
        /\ pulseOffTime d = (Fin 33 + draw w (7 * i + 3) * Fin 207)%js
        /\ wireSpeed d = (Fin 1500 + draw w (7 * i + 4) * Fin 3100)%js
        /\ dielectricFlow d = (lit 0.7 + draw w (7 * i + 5) * lit 0.8)%js
        /\ d_dimensionalAccuracy d
           = (lit 0.070 + draw w (7 * i + 6) * lit 0.155)%js
        /\ (unit_random w -> in_declared_ranges d = true))
  /\ forall kind w', samples (fst (train kind false w')) = Fin 100.
Proof.
  intros data. subst data.
  split; [apply generateSyntheticData_length |].
  split; [apply draws_generateSyntheticData |]. split.
  - intros i Hi. eexists. split; [apply generateSyntheticData_nth, Hi |].
    rewrite synthetic_record_run. cbv zeta.
    cbn [fst voltage current pulseOnTime pulseOffTime wireSpeed
         dielectricFlow d_dimensionalAccuracy].
    rewrite !draw_advance, Nat.add_0_r.
    repeat (split; [reflexivity |]).
    intros Hw.
    pose proof (synthetic_record_ranges (advance (7 * i) 0 w)
                  (unit_random_advance _ _ _ Hw)) as Hr.
    rewrite synthetic_record_run in Hr. cbv zeta in Hr. cbn [fst] in Hr.
    rewrite !draw_advance, Nat.add_0_r in Hr. exact Hr.
  - intros kind w'.
    assert (Hs : length_of (training_data false w') = Fin 100).
    { unfold training_data, load_data, length_of.
      rewrite generateSyntheticData_length. reflexivity. }
    destruct kind; unfold train;
      [rewrite trainSVM_run | rewrite trainANN_run | rewrite trainELM_run
      | rewrite trainGA_run]; exact Hs.
Qed.

Lemma synthetic_data_has_100_records_witness :
  (3 < 100)%nat
  /\ unit_random (constant_world 0.5)
  /\ samples (fst (@train rational_math two_records GA false
                     (constant_world 0.5))) = Fin 100
  /\ exists d,
       nth_error (fst (generateSyntheticData (constant_world 0.5))) 3
       = Some d
       /\ voltage d = (lit 2.5 + Fin 0.5 * lit 3.5)%js
       /\ in_declared_ranges d = true.
Proof.
  assert (Hi : (3 < 100)%nat) by lia.
  assert (Hw : unit_random (constant_world 0.5))
    by (apply constant_world_unit; lra).
  destruct (@synthetic_data_has_100_records rational_math two_records
              (constant_world 0.5)) as [_ [_ [Hrec Hs]]].
  destruct (Hrec 3%nat Hi) as [d [Hd [Hv [_ [_ [_ [_ [_ [_ Hr]]]]]]]]].
  split; [exact Hi |]. split; [exact Hw |]. split; [apply Hs |].
  exists d. split; [exact Hd |]. split; [exact Hv |]. exact (Hr Hw).
Defined.

Lemma call_all_pure {E : Type} (predict : Params -> Closure E Prediction)
  (env : E) (ps : list Params) :
  (forall p, snd (predict p env) = env) ->
  call_all predict env ps = (map (fun p => fst (predict p env)) ps, env).
Proof.
  intro Hpure. induction ps as [|p ps IH]; simpl.
  - reflexivity.
  - specialize (Hpure p). destruct (predict p env) as [out env'].
    simpl in Hpure. subst env'. rewrite IH. reflexivity.
Qed.

(** C9. The predict closure of every kind is pure: in any sequence of
    calls each call returns what a first call with the same params returns,
    and the captured coefficients are afterwards what they were. *)
Theorem predict_is_pure `{MathLib} `{DatasetLoader} (kind : ModelKind)
  (useRealData : bool) (w : World) (ps : list Params) :
  let r := fst (train kind useRealData w) in
  call_all (predict r) (captured r) ps = (map (call r) ps, captured r)
  /\ forall params, captured_after r params = captured r.
Proof.
  intro r. subst r.
  destruct kind; unfold train;
    [rewrite trainSVM_run | rewrite trainANN_run | rewrite trainELM_run
    | rewrite trainGA_run];
    unfold call, captured_after; cbn [fst predict captured];
    (split; [apply call_all_pure; reflexivity | reflexivity]).
Qed.

(** C10. For every kind, data set, draw and params, the surfaceRoughness
    and dimensionalAccuracy outputs are max(0.1, input surfaceRoughness or
    1.0) and max(1, (input deviation or 0.1) * 1000). *)
Theorem shared_outputs_are_kind_independent `{MathLib} `{DatasetLoader}
  (kind : ModelKind) (useRealData : bool) (w : World) (params : Params) :
  let out := call (fst (train kind useRealData w)) params in
  surfaceRoughness_out out = spec_surfaceRoughness params
  /\ dimensionalAccuracy out = spec_dimensionalAccuracy params.
Proof.
  intro out. subst out.
  destruct (call_shared_outputs kind useRealData w params) as [-> ->].
  unfold spec_surfaceRoughness, spec_dimensionalAccuracy, or_default.
  destruct (surfaceRoughness params), (deviation params); split; reflexivity.
Qed.

End Claims.

(* ===================================================================== *)
(** * The parameter panel                                                  *)
(* ===================================================================== *)

Module ParameterPanelFacts.
Import JS ParameterPanel.
Open Scope string_scope.

(** C4. Choosing one of the four materials makes the handler pass the
    material and then the first grade of that material to
    [onParameterChange], whatever the parent holds; with a parent that
    stores what it is handed, the grade afterwards is that first grade
    whatever it was before: Ti6Al4V for Titanium, Al-6061 for Aluminium. *)
Theorem material_change_resets_grade (newMaterial : string)
  (p : EDMParameters) :
  In newMaterial materialOptions ->
  exists newGrade,
    option_map first_of (get_property gradeOptions newMaterial)
    = Some (Str newGrade)
    /\ (forall (Parent : Type)
               (onParameterChange : string -> Value -> Parent -> Parent)
               (parent : Parent),
           material_onChange onParameterChange newMaterial parent
           = Some (onParameterChange "grade" (Str newGrade)
                     (onParameterChange "material" (Str newMaterial)
                        parent)))
    /\ material_onChange update_parameters newMaterial p
       = Some (mkParameters newMaterial newGrade (thickness p)
                 (laserPower p) (speed p) (gasAndPressure p)
                 (surfaceRoughness p) (deviation p) (kerfTaper p)
                 (hazDepth p) (linearEnergy p))
    /\ (newMaterial = "Titanium" -> newGrade = "Ti6Al4V")
    /\ (newMaterial = "Aluminium" -> newGrade = "Al-6061").
Proof.
  intro Hin. simpl in Hin.
  destruct Hin as [<- | [<- | [<- | [<- | []]]]].
  - exists "S355JR". repeat split; try reflexivity; discriminate.
  - exists "AISI 304". repeat split; try reflexivity; discriminate.
  - exists "Al-6061". repeat split; try reflexivity; discriminate.
  - exists "Ti6Al4V". repeat split; try reflexivity; discriminate.
Qed.

Lemma material_change_resets_grade_witness :
  In "Titanium" materialOptions
  /\ material_onChange update_parameters "Titanium" sample_parameters
     = Some (mkParameters "Titanium" "Ti6Al4V" (Fin 4) (Fin 3) (Fin 3000)
               "N₂ @ 1.0 bar" (Fin 1) (lit 0.1) (lit 0.05) (Fin 100)
               (Fin 60)).
Proof.
  assert (Hin : In "Titanium" materialOptions) by (simpl; auto).
  split; [exact Hin|].
  destruct (material_change_resets_grade "Titanium" sample_parameters Hin)
    as [g [_ [_ [Hp [Hg _]]]]].
  rewrite Hp, (Hg eq_refl). reflexivity.
Defined.

End ParameterPanelFacts.

(* ===================================================================== *)
(** * The AI model panel                                                   *)
(* ===================================================================== *)

Module AIModelPanelFacts.
Import JS AiModels AIModelPanel RoundingFacts NumberFacts RunFacts.
Import SyntheticFacts.


(** *** generateTrainingData *)

Lemma training_loop_holds (I : World -> Prop) (P : TrainingRecord -> Prop)
  (n : nat) (data : list TrainingRecord) :
  holds I training_record P ->
  Forall P data ->
  holds I (training_loop n data)
    (fun out => List.length out = (List.length data + n)%nat /\ Forall P out).
Proof.
  intro Hrec. revert data. induction n as [|n IH]; intros data Hdata;
    cbn [training_loop].
  - apply holds_ret. split; [lia | assumption].
  - eapply holds_bind; [exact Hrec|]. intros d Hd.
    eapply holds_weaken.
    + apply IH. apply Forall_app.
      split; [assumption | repeat constructor; assumption].
    + intros out [Hlen Hout]. split; [|assumption].
      rewrite Hlen, length_app. simpl. lia.
Qed.

Lemma generateTrainingData_length (w : World) :
  List.length (fst (generateTrainingData w)) = 100%nat.
Proof.
  destruct (training_loop_holds (fun _ => True) (fun _ => True) 100 []
              (holds_trivial _) (Forall_nil _) w I) as [[Hlen _] _].
  exact Hlen.
Qed.

Lemma draws_training_record : draws training_record 7 0.
Proof.
  unfold training_record.
  eapply draws_eq; [repeat draws_step | reflexivity | reflexivity].
Qed.

Lemma draws_training_loop (n : nat) (data : list TrainingRecord) :
  draws (training_loop n data) (n * 7) 0.
Proof.
  revert data. induction n as [|n IH]; intro data; cbn [training_loop].
  - apply draws_ret.
  - eapply draws_eq;
      [eapply draws_bind; [exact draws_training_record | intro d; apply IH]
      | reflexivity | reflexivity].
Qed.

#[local] Opaque generateTrainingData.

Lemma progress_step (k : nat) :
  (k < 50)%nat ->
  (Fin (inject_Z (2 * Z.of_nat k)) + Fin 2)%js
  = Fin (inject_Z (2 * Z.of_nat (S k))).
Proof.
  intros Hk. cbn [add].
  rewrite (round64_ext _ (inject_Z (2 * Z.of_nat (S k)))).
  - apply round64_Z. lia.
  - replace (2 * Z.of_nat (S k))%Z with (2 * Z.of_nat k + 2)%Z by lia.
    rewrite inject_Z_plus. reflexivity.
Qed.

Lemma progress_reached (k : nat) :
  geb (Fin (inject_Z (2 * Z.of_nat k))) (Fin 100)
  = if Nat.leb 50 k then true else false.
Proof.
  destruct (Nat.leb 50 k) eqn:E.
  - apply Nat.leb_le in E. apply geb_Fin. unfold Qle. cbn [Qnum Qden inject_Z]. lia.
  - apply Nat.leb_gt in E.
    destruct (geb (Fin (inject_Z (2 * Z.of_nat k))) (Fin 100)) eqn:G;
      [|reflexivity].
    apply geb_Fin in G. unfold Qle in G. cbn [Qnum Qden inject_Z] in G. lia.
Qed.

Lemma run_app (l1 l2 : list Event) (st : State) (w : World) :
  run (l1 ++ l2) st w = run l2 (fst (run l1 st w)) (snd (run l1 st w)).
Proof.
  revert st w. induction l1 as [|e l1 IH]; intros st w; simpl.
  - reflexivity.
  - rewrite !bind_run. apply IH.
Qed.

Lemma handleTrainModel_running (st0 : State) :
  intervals st0 = [] ->
  handleTrainModel st0 = running st0 (selectedModel st0) 0.
Proof.
  intro Hi. unfold handleTrainModel, setInterval, setTrainingProgress,
    setIsTraining, running. simpl. rewrite Hi. reflexivity.
Qed.

Lemma find_interval_running (st0 : State) (m : string) (k : nat) :
  find_interval (next_interval_id st0) (running st0 m k)
  = Some (mkInterval (next_interval_id st0) (Fin 50) (selectedModel st0)).
Proof.
  unfold find_interval. simpl. rewrite Nat.eqb_refl. reflexivity.
Qed.

(** A tick before the progress has reached 100 adds 2. *)
Lemma tick_running (st0 : State) (m : string) (k : nat) (w : World) :
  (k < 50)%nat ->
  step (Tick (next_interval_id st0)) (running st0 m k) w
  = (running st0 m (S k), w).
Proof.
  intro Hk. unfold step. rewrite find_interval_running.
  unfold interval_callback.
  cbn [trainingProgress running]. rewrite progress_reached.
  assert (E : Nat.leb 50 k = false) by (apply Nat.leb_gt; exact Hk).
  rewrite E. unfold ret, setTrainingProgress.
  cbn [selectedModel trainingProgress isTraining intervals next_interval_id
       onTrainModel_calls running].
  rewrite progress_step by exact Hk. reflexivity.
Qed.

(** The tick that finds the progress at 100 ends the run. *)
Lemma tick_finishing (st0 : State) (m : string) (w : World) :
  step (Tick (next_interval_id st0)) (running st0 m 50) w
  = (finished st0 m (fst (generateTrainingData w)),
     snd (generateTrainingData w)).
Proof.
  unfold step. rewrite find_interval_running.
  unfold interval_callback.
  cbn [trainingProgress running]. rewrite progress_reached.
  cbn [Nat.leb]. rewrite bind_run.
  unfold ret, finished, onTrainModel, setTrainingProgress, setIsTraining,
    clearInterval.
  cbn [selectedModel trainingProgress isTraining intervals next_interval_id
       onTrainModel_calls interval_id closure_selectedModel running].
  cbn [filter interval_id]. rewrite Nat.eqb_refl. reflexivity.
Qed.

Lemma tick_finished (st0 : State) (m : string) (data : list TrainingRecord)
  (id : nat) (w : World) :
  step (Tick id) (finished st0 m data) w = (finished st0 m data, w).
Proof. reflexivity. Qed.

Lemma run_cons (e : Event) (l : list Event) (st : State) (w : World) :
  run (e :: l) st w = run l (fst (step e st w)) (snd (step e st w)).
Proof. cbn [run]. apply bind_run. Qed.

Lemma repeat_S {A : Type} (a : A) (n : nat) :
  repeat a (S n) = a :: repeat a n.
Proof. reflexivity. Qed.

Lemma ticks_running (st0 : State) (m : string) (j k : nat) (w : World) :
  (k + j <= 50)%nat ->
  run (repeat (Tick (next_interval_id st0)) j) (running st0 m k) w
  = (running st0 m (k + j), w).
Proof.
  revert k. induction j as [|j IH]; intros k Hk.
  - rewrite Nat.add_0_r. reflexivity.
  - rewrite repeat_S, run_cons, tick_running by lia.
    cbn [fst snd]. rewrite IH by lia. f_equal. f_equal. lia.
Qed.

Lemma ticks_finished (st0 : State) (m : string) (data : list TrainingRecord)
  (id j : nat) (w : World) :
  run (repeat (Tick id) j) (finished st0 m data) w
  = (finished st0 m data, w).
Proof.
  induction j as [|j IH]; [reflexivity|].
  rewrite repeat_S, run_cons, tick_finished. exact IH.
Qed.

Lemma click_train_idle (st0 : State) (w : World) :
  isTraining st0 = false -> intervals st0 = [] ->
  step ClickTrain st0 w = (running st0 (selectedModel st0) 0, w).
Proof.
  intros Ht Hi. unfold step, trainButton_onClick, ret. rewrite Ht.
  rewrite handleTrainModel_running by exact Hi. reflexivity.
Qed.

(** Ticks from the point where the progress is at 100. *)
Lemma ticks_finishing (st0 : State) (m : string) (j : nat) (w : World) :
  run (repeat (Tick (next_interval_id st0)) (S j)) (running st0 m 50) w
  = (finished st0 m (fst (generateTrainingData w)),
     snd (generateTrainingData w)).
Proof.
  rewrite repeat_S, run_cons, tick_finishing.
  generalize (generateTrainingData w). intros [data w']. cbn [fst snd].
  apply ticks_finished.
Qed.

(** The whole run: the click and [k] ticks. *)
Lemma run_of_ticks (st0 : State) (w : World) (k : nat) :
  isTraining st0 = false -> intervals st0 = [] ->
  run (ClickTrain :: repeat (Tick (next_interval_id st0)) k) st0 w
  = if Nat.leb k 50
    then (running st0 (selectedModel st0) k, w)
    else (finished st0 (selectedModel st0) (fst (generateTrainingData w)),
          snd (generateTrainingData w)).
Proof.
  intros Ht Hi. rewrite run_cons, click_train_idle by assumption.
  cbn [fst snd]. destruct (Nat.leb k 50) eqn:E.
  - apply Nat.leb_le in E. apply (ticks_running st0 _ k 0 w). lia.
  - apply Nat.leb_gt in E.
    replace k with (50 + S (k - 51))%nat by lia.
    rewrite repeat_app, run_app, (ticks_running st0 _ 50 0 w) by lia.
    cbn [fst snd Nat.add]. rewrite ticks_finishing. reflexivity.
Qed.

(** *** Clicks during a run *)

Lemma click_model_running (st0 : State) (m id : string) (k : nat)
  (w : World) :
  step (ClickModel id) (running st0 m k) w
  = (running st0 (if existsb (String.eqb id) models then id else m) k, w).
Proof.
  unfold step, modelButton_onClick, ret.
  destruct (existsb (String.eqb id) models); reflexivity.
Qed.

Lemma click_train_running (st0 : State) (m : string) (k : nat) (w : World) :
  step ClickTrain (running st0 m k) w = (running st0 m k, w).
Proof. reflexivity. Qed.

Lemma click_keeps_calls (e : Event) (st : State) (w : World) :
  is_tick e = false ->
  onTrainModel_calls (fst (step e st w)) = onTrainModel_calls st
  /\ snd (step e st w) = w.
Proof.
  destruct e as [id| |id]; try discriminate; intros _.
  - unfold step, modelButton_onClick, ret. cbn [fst snd].
    destruct (existsb (String.eqb id) models); split; reflexivity.
  - unfold step, trainButton_onClick, ret. cbn [fst snd].
    destruct (isTraining st); split; reflexivity.
Qed.

Lemma clicks_keep_calls (events : list Event) (st : State) (w : World) :
  forallb (fun e => negb (is_tick e)) events = true ->
  onTrainModel_calls (fst (run events st w)) = onTrainModel_calls st
  /\ snd (run events st w) = w.
Proof.
  revert st w. induction events as [|e events IH]; intros st w Hall.
  - split; reflexivity.
  - cbn [forallb] in Hall. apply andb_true_iff in Hall.
    destruct Hall as [He Hall]. apply negb_true_iff in He.
    rewrite run_cons.
    destruct (click_keeps_calls e st w He) as [Hc Hw].
    destruct (IH (fst (step e st w)) (snd (step e st w)) Hall) as [Hc' Hw'].
    split; congruence.
Qed.

(** C5. A click on the train button while a run is in progress changes
    nothing: the state (progress, flag, intervals, calls made to
    [onTrainModel]) and the world stay as they are, and a run in which such
    a click falls proceeds exactly as the run without it. *)
Theorem train_click_while_running_is_noop (st : State) (w : World) :
  isTraining st = true ->
  trainButton_onClick st = st
  /\ step ClickTrain st w = (st, w)
  /\ forall rest, run (ClickTrain :: rest) st w = run rest st w.
Proof.
  intro Ht.
  assert (Hclick : trainButton_onClick st = st)
    by (unfold trainButton_onClick; rewrite Ht; reflexivity).
  assert (Hstep : step ClickTrain st w = (st, w))
    by (unfold step, ret; rewrite Hclick; reflexivity).
  split; [exact Hclick|]. split; [exact Hstep|].
  intro rest. rewrite run_cons, Hstep. reflexivity.
Qed.

Lemma train_click_while_running_is_noop_witness :
  isTraining (handleTrainModel initial) = true
  /\ trainButton_onClick (handleTrainModel initial) = handleTrainModel initial.
Proof.
  split; [reflexivity|].
  exact (proj1 (train_click_while_running_is_noop (handleTrainModel initial)
                  (constant_world 0.5) eq_refl)).
Defined.

(** C8 (amended). From an idle state, the click puts the progress at 0 and
    each of the first 50 ticks of the 50 ms interval adds 2, so the
    progress never exceeds 100 and [onTrainModel] is not called while it is
    on its way; the tick that finds the progress at 100 (the 51st) clears
    the interval and the flag and calls [onTrainModel] once, with the model
    selected at the click. The progress is not reset by that tick: it
    stays at 100, through any later tick, until the next click on the
    train button puts it back to 0. *)
Theorem training_run_timeline (st0 : State) (w : World) :
  isTraining st0 = false -> intervals st0 = [] ->
  let id := next_interval_id st0 in
  let after (k : nat) :=
    fst (run (ClickTrain :: repeat (Tick id) k) st0 w) in
  (forall k, (k <= 50)%nat ->
     trainingProgress (after k) = Fin (inject_Z (2 * Z.of_nat k))
     /\ leb (trainingProgress (after k)) (Fin 100) = true
     /\ isTraining (after k) = true
     /\ map delay (intervals (after k)) = [Fin 50]
     /\ onTrainModel_calls (after k) = onTrainModel_calls st0)
  /\ (forall k, (50 < k)%nat ->
     trainingProgress (after k) = Fin 100
     /\ isTraining (after k) = false
     /\ intervals (after k) = []
     /\ onTrainModel_calls (after k)
        = onTrainModel_calls st0
          ++ [(selectedModel st0, fst (generateTrainingData w))]
     /\ trainingProgress (trainButton_onClick (after k)) = Fin 0).
Proof.
  intros Ht Hi id after. subst id after. split; intros k Hk; cbv beta.
  - rewrite (run_of_ticks st0 w k Ht Hi).
    assert (E : Nat.leb k 50 = true) by (apply Nat.leb_le; exact Hk).
    rewrite E. cbn [fst running trainingProgress isTraining intervals
                    onTrainModel_calls map delay].
    repeat split.
    apply leb_Fin. unfold Qle. cbn [Qnum Qden inject_Z]. lia.
  - rewrite (run_of_ticks st0 w k Ht Hi).
    assert (E : Nat.leb k 50 = false) by (apply Nat.leb_gt; exact Hk).
    rewrite E. cbn [fst]. repeat split.
Qed.

Lemma training_run_timeline_witness :
  isTraining initial = false
  /\ intervals initial = []
  /\ trainingProgress
       (fst (run (ClickTrain :: repeat (Tick 0) 25) initial
               (constant_world 0.5)))
     = Fin 50.
Proof.
  split; [reflexivity|]. split; [reflexivity|].
  exact (proj1 (proj1 (training_run_timeline initial (constant_world 0.5)
                         eq_refl eq_refl) 25%nat ltac:(lia))).
Defined.

(** C8, as stated, fails: after the click and the 51 ticks of a run the
    flag is cleared and [onTrainModel] has been called once, but the
    progress is 100, not 0; it is 0 again only after the next click. *)
Lemma training_progress_counterexample :
  let w := constant_world 0.5 in
  let st := fst (run (ClickTrain :: repeat (Tick 0) 51) initial w) in
  let later := fst (run (ClickTrain :: repeat (Tick 0) 60) initial w) in
  isTraining st = false
  /\ List.length (onTrainModel_calls st) = 1%nat
  /\ trainingProgress st = Fin 100
  /\ geb (trainingProgress st) (Fin 1) = true
  /\ trainingProgress later = Fin 100
  /\ trainingProgress (trainButton_onClick st) = Fin 0.
Proof.
  intros w st later. subst st later.
  rewrite !(run_of_ticks initial w) by reflexivity.
  cbn [Nat.leb fst]. repeat split.
Qed.

End AIModelPanelFacts.
